(** * Urban-Retail-Visualizer: spatial clustering and cluster metrics

    A shallow embedding of the clustering and metrics code of
    [src/frontend/src/App.jsx] ([haversine], the body of [analyzeLocation]
    from the Overpass result to [clustersSummary]) together with the
    properties the specification states about it.

    Numbers.  A JavaScript number is modelled as a real number or one of the
    three special values [NaN], [+Infinity], [-Infinity].  Arithmetic on
    finite values is exact: rounding to binary64, overflow and the sign of
    zero are not modelled.  Two consequences matter below.  In binary64 the
    [a] of [haversine] can exceed 1 by a rounding error when the two points
    are nearly antipodal, and [Math.sqrt(1 - a)] is then [NaN]; exact
    arithmetic never shows this, so the properties of a summary that need
    the distances to be numbers take it as a hypothesis and do not derive
    it.  And an equation between two results stands for the same ideal
    value: the source's results may differ in their last digits. *)

From Stdlib Require Import Reals Lra Lia List Bool Arith ZArith String Ascii.
From Stdlib Require Import FunctionalExtensionality.
Import ListNotations.

Set Implicit Arguments.

(** ** JavaScript numbers *)

Inductive num : Type :=
| Fin (x : R)
| PosInf
| NegInf
| NaN.

Declare Scope js_scope.
Delimit Scope js_scope with js.
Bind Scope js_scope with num.

Module Num.

Local Open Scope R_scope.

Definition is_finite (a : num) : Prop :=
  match a with Fin _ => True | _ => False end.

Definition neg (a : num) : num :=
  match a with
  | Fin x => Fin (- x)
  | PosInf => NegInf
  | NegInf => PosInf
  | NaN => NaN
  end.

(** [a + b] *)
Definition add (a b : num) : num :=
  match a, b with
  | NaN, _ | _, NaN => NaN
  | Fin x, Fin y => Fin (x + y)
  | PosInf, NegInf | NegInf, PosInf => NaN
  | PosInf, _ | _, PosInf => PosInf
  | NegInf, _ | _, NegInf => NegInf
  end.

(** [a - b] *)
Definition sub (a b : num) : num := add a (neg b).

(** The infinity of the sign of [x], [NaN] at zero: [Infinity * x]. *)
Definition inf_times (x : R) : num :=
  match total_order_T x 0 with
  | inleft (left _) => NegInf
  | inleft (right _) => NaN
  | inright _ => PosInf
  end.

(** [a * b] *)
Definition mul (a b : num) : num :=
  match a, b with
  | NaN, _ | _, NaN => NaN
  | Fin x, Fin y => Fin (x * y)
  | PosInf, Fin y | Fin y, PosInf => inf_times y
  | NegInf, Fin y | Fin y, NegInf => neg (inf_times y)
  | PosInf, PosInf | NegInf, NegInf => PosInf
  | PosInf, NegInf | NegInf, PosInf => NegInf
  end.

(** [a / b]; a zero divisor is the positive zero. *)
Definition div (a b : num) : num :=
  match a, b with
  | NaN, _ | _, NaN => NaN
  | Fin x, Fin y =>
      if Req_dec_T y 0 then inf_times x else Fin (x / y)
  | Fin _, (PosInf | NegInf) => Fin 0
  | PosInf, Fin y => if Rlt_dec y 0 then NegInf else PosInf
  | NegInf, Fin y => if Rlt_dec y 0 then PosInf else NegInf
  | (PosInf | NegInf), (PosInf | NegInf) => NaN
  end.

(** [a ** 2] *)
Definition pow2 (a : num) : num := mul a a.

(** [a <= b], false as soon as one side is [NaN]. *)
Definition leb (a b : num) : bool :=
  match a, b with
  | NaN, _ | _, NaN => false
  | NegInf, _ | _, PosInf => true
  | Fin x, Fin y => if Rle_dec x y then true else false
  | _, _ => false
  end.

(** [a < b] *)
Definition ltb (a b : num) : bool :=
  match a, b with
  | NaN, _ | _, NaN => false
  | Fin x, Fin y => if Rlt_dec x y then true else false
  | NegInf, (Fin _ | PosInf) | Fin _, PosInf => true
  | _, _ => false
  end.

(** A JavaScript array length as a number. *)
Definition of_nat (n : nat) : num := Fin (INR n).

End Num.

Infix "+" := Num.add : js_scope.
Infix "-" := Num.sub : js_scope.
Infix "*" := Num.mul : js_scope.
Infix "/" := Num.div : js_scope.

(** ** The [Math] object *)

Module Math.

Local Open Scope R_scope.

Definition PI : num := Fin Rtrigo1.PI.

Definition sin (a : num) : num :=
  match a with Fin x => Fin (Rtrigo_def.sin x) | _ => NaN end.

Definition cos (a : num) : num :=
  match a with Fin x => Fin (Rtrigo_def.cos x) | _ => NaN end.

Definition sqrt (a : num) : num :=
  match a with
  | Fin x => if Rlt_dec x 0 then NaN else Fin (R_sqrt.sqrt x)
  | PosInf => PosInf
  | NegInf | NaN => NaN
  end.

(** The angle of the point [(x, y)], in (-PI, PI]. *)
Definition Ratan2 (y x : R) : R :=
  match total_order_T x 0 with
  | inright _ => atan (y / x)
  | inleft (left _) =>
      if Rle_dec 0 y then atan (y / x) + Rtrigo1.PI
      else atan (y / x) - Rtrigo1.PI
  | inleft (right _) =>
      match total_order_T y 0 with
      | inright _ => Rtrigo1.PI / 2
      | inleft (left _) => - (Rtrigo1.PI / 2)
      | inleft (right _) => 0
      end
  end.

Definition atan2 (y x : num) : num :=
  match y, x with
  | NaN, _ | _, NaN => NaN
  | Fin b, Fin a => Fin (Ratan2 b a)
  | Fin b, PosInf => Fin 0
  | Fin b, NegInf =>
      if Rle_dec 0 b then Fin Rtrigo1.PI else Fin (- Rtrigo1.PI)
  | PosInf, Fin _ => Fin (Rtrigo1.PI / 2)
  | NegInf, Fin _ => Fin (- (Rtrigo1.PI / 2))
  | PosInf, PosInf => Fin (Rtrigo1.PI / 4)
  | PosInf, NegInf => Fin (3 * Rtrigo1.PI / 4)
  | NegInf, PosInf => Fin (- (Rtrigo1.PI / 4))
  | NegInf, NegInf => Fin (- (3 * Rtrigo1.PI / 4))
  end.

(** [Math.max(a, b)] *)
Definition max (a b : num) : num :=
  match a, b with
  | NaN, _ | _, NaN => NaN
  | PosInf, _ | _, PosInf => PosInf
  | NegInf, c | c, NegInf => c
  | Fin x, Fin y => Fin (Rmax x y)
  end.

(** [Math.min(a, b)] *)
Definition min (a b : num) : num :=
  match a, b with
  | NaN, _ | _, NaN => NaN
  | NegInf, _ | _, NegInf => NegInf
  | PosInf, c | c, PosInf => c
  | Fin x, Fin y => Fin (Rmin x y)
  end.

(** [Math.max(...l)]: [-Infinity] when there is no argument. *)
Definition max_of (l : list num) : num := fold_left max l NegInf.

(** [Math.round(a)]: the nearest integer, a half rounds up. *)
Definition round (a : num) : num :=
  match a with
  | Fin x => Fin (IZR (Zfloor (x + / 2)))
  | _ => a
  end.

End Math.

(** ** [haversine] (App.jsx, lines 21-33) *)

Abbreviation point := (num * num)%type.

Section Haversine.

Local Open Scope js_scope.

Definition toRad (deg : num) : num := (deg * Math.PI) / Fin 180.

Definition haversine (p1 p2 : point) : num :=
  let R := Fin 6371000 in
  let dLat := toRad (fst p2 - fst p1) in
  let dLon := toRad (snd p2 - snd p1) in
  let lat1 := toRad (fst p1) in
  let lat2 := toRad (fst p2) in
  let a :=
    Num.pow2 (Math.sin (dLat / Fin 2)) +
    Math.cos lat1 * Math.cos lat2 * Num.pow2 (Math.sin (dLon / Fin 2)) in
  R * Fin 2 * Math.atan2 (Math.sqrt a) (Math.sqrt (Fin 1 - a)).

End Haversine.

(** [haversine] on finite coordinates (degrees), as real numbers: the [a]
    of the source, and the distance. *)
Definition hav (lat1 lng1 lat2 lng2 : R) : R :=
  (Rsqr (sin ((lat2 - lat1) * PI / 180 / 2)) +
   cos (lat1 * PI / 180) * cos (lat2 * PI / 180) *
   Rsqr (sin ((lng2 - lng1) * PI / 180 / 2)))%R.

Definition haversineR (lat1 lng1 lat2 lng2 : R) : R :=
  (6371000 * 2 *
   Math.Ratan2 (sqrt (hav lat1 lng1 lat2 lng2))
               (sqrt (1 - hav lat1 lng1 lat2 lng2)))%R.

(** ** Errors and results

    A JavaScript call either returns or throws.  [TypeError] is what reading
    a property of [undefined] throws; the two other errors are those of the
    clusterer's contract. *)

Inductive error : Type :=
| TypeError
| InvalidParameter
| EmptyInput.

Inductive result (A : Type) : Type :=
| Ok (a : A)
| Throw (e : error).

Arguments Ok {A} a.
Arguments Throw {A} e.

Definition bind {A B : Type} (r : result A) (k : A -> result B) : result B :=
  match r with
  | Ok a => k a
  | Throw e => Throw e
  end.

Notation "x <- r ;; k" := (bind r (fun x => k))
  (at level 61, r at next level, right associativity).

(** [l.map(f)] for an [f] that may throw: the first throw ends the loop. *)
Fixpoint mapM {A B : Type} (f : A -> result B) (l : list A) : result (list B) :=
  match l with
  | [] => Ok []
  | a :: l' => b <- f a ;; bs <- mapM f l' ;; Ok (b :: bs)
  end.

(** ** Plain objects used as counters (App.jsx, lines 197-202)

    [types] and [sizes] start as [{}]: an object with no property of its own
    whose prototype is [Object.prototype].  Its own properties are kept in
    insertion order.  A value is a number or, once [+] has met something that
    is not a number, a string. *)

Inductive jsval : Type :=
| VNum (n : nat)
| VStr (s : string).

Definition obj : Type := list (string * jsval).

Module Obj.

Local Open Scope string_scope.

(** What [o[k]] finds on [Object.prototype] when [o] has no own property
    [k], as [+] converts it to a string: the source text of a built-in
    function (the text is the engine's; this is V8's), or
    ["[object Object]"] for the prototype itself, which [__proto__]
    reads. *)
Definition native (f : string) : string :=
  "function " ++ f ++ "() { [native code] }".

Definition inherited (k : string) : option string :=
  if String.eqb k "constructor" then Some (native "Object")
  else if String.eqb k "__proto__" then Some "[object Object]"
  else if existsb (String.eqb k)
       ["__defineGetter__"; "__defineSetter__"; "hasOwnProperty";
        "__lookupGetter__"; "__lookupSetter__"; "isPrototypeOf";
        "propertyIsEnumerable"; "toString"; "valueOf"; "toLocaleString"]
  then Some (native k)
  else None.

Fixpoint get_own (o : obj) (k : string) : option jsval :=
  match o with
  | [] => None
  | (k', v) :: o' => if String.eqb k k' then Some v else get_own o' k
  end.

Fixpoint set_own (o : obj) (k : string) (v : jsval) : obj :=
  match o with
  | [] => [(k, v)]
  | (k', v') :: o' =>
      if String.eqb k k' then (k', v) :: o' else (k', v') :: set_own o' k v
  end.

(** [o[k] = v]: the setter of [__proto__] ignores a value that is neither
    an object nor [null]; any other key becomes an own property. *)
Definition set (o : obj) (k : string) (v : jsval) : obj :=
  if String.eqb k "__proto__" then o else set_own o k v.

(** [(o[k] || 0) + 1] *)
Definition or0_plus1 (o : obj) (k : string) : jsval :=
  match get_own o k with
  | Some (VNum n) => VNum (n + 1)
  | Some (VStr s) => if String.eqb s "" then VNum 1 else VStr (s ++ "1")
  | None =>
      match inherited k with
      | Some text => VStr (text ++ "1")
      | None => VNum 1
      end
  end.

(** [o[k] = (o[k] || 0) + 1] *)
Definition bump (o : obj) (k : string) : obj := set o k (or0_plus1 o k).

(** The sum of the values of [o], when all of them are numbers. *)
Fixpoint total (o : obj) : option nat :=
  match o with
  | [] => Some 0
  | (_, VNum n) :: o' => option_map (Nat.add n) (total o')
  | (_, VStr _) :: _ => None
  end.

End Obj.

(** ** Stores and cluster summaries (App.jsx, lines 117-138 and 184-215) *)

Inductive size_class : Type := small | medium | large.

Definition size_name (z : size_class) : string :=
  match z with
  | small => "small"
  | medium => "medium"
  | large => "large"
  end.

Module Store.
Record t : Type := mk {
  id : Z;
  name : string;
  lat : num;
  lng : num;
  type : string;
  size : size_class
}.
End Store.

Abbreviation store := Store.t.

Module Summary.
Record t : Type := mk {
  id : nat;
  centroid : point;
  radiusMeters : num;
  storeCount : nat;
  densityPerKm2 : num;
  densityScore : num;
  types : obj;
  sizes : obj;
  stores : list store
}.
End Summary.

Abbreviation ClusterSummary := Summary.t.

Section ClustersSummary.

Local Open Scope js_scope.

(** The constants of the callback of [clusters.map] (lines 185-202), for
    the stores [clusterStores] of one cluster. *)
Variable clusterStores : list store.

Definition latSum : num :=
  fold_left (fun s it => s + Store.lat it) clusterStores (Fin 0).

Definition lngSum : num :=
  fold_left (fun s it => s + Store.lng it) clusterStores (Fin 0).

Definition centroid : point :=
  (latSum / Num.of_nat (List.length clusterStores),
   lngSum / Num.of_nat (List.length clusterStores)).

Definition maxDist : num :=
  Math.max_of
    (map (fun cs => haversine centroid (Store.lat cs, Store.lng cs))
         clusterStores).

Definition radiusMeters : num := Math.max maxDist (Fin 100).

Definition areaKm2 : num := Math.PI * Num.pow2 (radiusMeters / Fin 1000).

Definition densityPerKm2 : num :=
  Num.of_nat (List.length clusterStores) / Math.max areaKm2 (Fin 0.0001).

Definition densityScore : num :=
  Math.round (Math.min (Fin 100) (densityPerKm2 * Fin 10)).

(** The [forEach] of lines 199-202. *)
Definition breakdown : obj * obj :=
  fold_left
    (fun '(types, sizes) s =>
       (Obj.bump types (Store.type s),
        Obj.bump sizes (size_name (Store.size s))))
    clusterStores ([], []).

(** The value the callback of [clusters.map] returns for [clusterStores]
    at position [idx]. *)
Definition summary (idx : nat) : ClusterSummary :=
  {| Summary.id := idx;
     Summary.centroid := centroid;
     Summary.radiusMeters := radiusMeters;
     Summary.storeCount := List.length clusterStores;
     Summary.densityPerKm2 := densityPerKm2;
     Summary.densityScore := densityScore;
     Summary.types := fst breakdown;
     Summary.sizes := snd breakdown;
     Summary.stores := clusterStores |}.

End ClustersSummary.

(** A store whose coordinates are numbers other than [NaN] and the
    infinities, as the coordinates of an Overpass node are. *)
Definition finite_store (s : store) : Prop :=
  Num.is_finite (Store.lat s) /\ Num.is_finite (Store.lng s).

(** [clusterIndexes.map((i) => fetchedStores[i])]: an index out of range
    gives [undefined], and the first [it.lat] on it throws. *)
Definition lookupStores (fetchedStores : list store) (clusterIndexes : list nat)
  : result (list store) :=
  mapM (fun i => match nth_error fetchedStores i with
                 | Some s => Ok s
                 | None => Throw TypeError
                 end) clusterIndexes.

(** [clusters.map((clusterIndexes, idx) => ...)], from position [idx]
    on. *)
Fixpoint clustersSummary_from (idx : nat) (fetchedStores : list store)
    (clusters : list (list nat)) : result (list ClusterSummary) :=
  match clusters with
  | [] => Ok []
  | clusterIndexes :: rest =>
      cs <- lookupStores fetchedStores clusterIndexes ;;
      ss <- clustersSummary_from (S idx) fetchedStores rest ;;
      Ok (summary cs idx :: ss)
  end.

Definition clustersSummary := clustersSummary_from 0.

(** ** The clusterer ([dbscan.run], called at App.jsx line 146)

    [analyzeLocation] calls the class [DBSCAN] of the package
    [density-clustering], whose source is not part of [src/].  Every
    definition of this module is modelled from section 4.2 of the
    specification: one state per point ([unvisited], [noise-candidate],
    [assigned(id)]), a scan of the points in input order, and for each
    unvisited core point an expansion over a pending set.  Only the
    sizes of its clusters enter a property below; what the package leaves
    in its [noise] field, which line 149 reads as it is, and what it does
    with parameters out of range are not known from [src/]. *)

Module DBSCAN.

(** Modelled from the spec: the state of a point in [DBSCAN], one of
    [unvisited], [noise-candidate] and [assigned(clusterId)] (section 9). *)
Inductive pstate : Type :=
| Unvisited
| NoiseCandidate
| Assigned (c : nat).

Definition assignment : Type := nat -> pstate.

Definition upd (st : assignment) (i : nat) (s : pstate) : assignment :=
  fun j => if j =? i then s else st j.

Definition assigned (st : assignment) (i : nat) : bool :=
  match st i with Assigned _ => true | _ => false end.

Definition in_cluster (st : assignment) (c i : nat) : bool :=
  match st i with Assigned c' => c' =? c | _ => false end.

Definition is_noise (st : assignment) (i : nat) : bool :=
  match st i with NoiseCandidate => true | _ => false end.

Section Core.

(** [n] points, [within p q] when point [q] is within [eps] of point
    [p], and the least size [minPts] of a core point's neighborhood. *)
Variable n : nat.
Variable within : nat -> nat -> bool.
Variable minPts : Z.

(** Modelled from the spec: the neighborhood query of [DBSCAN], all points
    within [eps] of [p], [p] included (step 2). *)
Definition neighborhood (p : nat) : list nat :=
  filter (fun q => (q =? p) || within p q) (seq 0 n).

(** Modelled from the spec: the core-point test of [DBSCAN], a
    neighborhood of at least [minPts] points. *)
Definition is_core (p : nat) : bool :=
  (minPts <=? Z.of_nat (List.length (neighborhood p)))%Z.

(** Modelled from the spec: adding [qs] to the pending set of [DBSCAN],
    without duplicates (step 3). *)
Definition add_pending (pending qs : list nat) : list nat :=
  pending ++ filter (fun q => negb (existsb (Nat.eqb q) pending)) qs.

(** Modelled from the spec: the cluster expansion of [DBSCAN] (step 3).
    Each pending point that no cluster has yet joins cluster [c], and
    brings its neighborhood into the pending set when it is a core point.
    A point that already has a cluster is skipped (step 4).  [fuel] bounds
    the number of points that may still join: the number of points
    without a cluster is always enough ([expand_fuel]). *)
Fixpoint expand (fuel : nat) (c : nat) (pending : list nat)
    (st : assignment) {struct fuel} : assignment :=
  (fix loop (pending : list nat) : assignment :=
     match pending with
     | [] => st
     | q :: rest =>
         if assigned st q then loop rest
         else
           match fuel with
           | O => st
           | S fuel' =>
               let st' := upd st q (Assigned c) in
               if is_core q
               then expand fuel' c (add_pending rest (neighborhood q)) st'
               else expand fuel' c rest st'
           end
     end) pending.


(** The points that have no cluster yet. *)
Definition unassigned (st : assignment) : nat :=
  List.length (filter (fun i => negb (assigned st i)) (seq 0 n)).

(** What an expansion of cluster [c] from [pending] does to [st]. *)
Record expanded (c : nat) (pending : list nat) (st st' : assignment) : Prop := {
  exp_keep : forall i, assigned st i = true -> st' i = st i;
  exp_new : forall i, st' i = st i \/ (st' i = Assigned c /\ i < n);
  exp_pending : forall q, In q pending -> assigned st' q = true;
  exp_closed : forall q,
      assigned st q = false -> assigned st' q = true -> is_core q = true ->
      forall x, In x (neighborhood q) -> assigned st' x = true;
  exp_from : forall q,
      assigned st q = false -> assigned st' q = true ->
      In q pending \/
      exists y, is_core y = true /\ assigned st y = false /\
                assigned st' y = true /\ In q (neighborhood y)
}.

(** Modelled from the spec: the main loop of [DBSCAN] (step 2) over the
    points [ps], [k] clusters found so far.  An unvisited point that is
    not a core point becomes a noise candidate; an unvisited core point
    starts cluster [k]. *)
Fixpoint scan (ps : list nat) (st : assignment) (k : nat)
  : assignment * nat :=
  match ps with
  | [] => (st, k)
  | p :: ps' =>
      match st p with
      | Unvisited =>
          if is_core p
          then scan ps' (expand n k (neighborhood p) st) (S k)
          else scan ps' (upd st p NoiseCandidate) k
      | _ => scan ps' st k
      end
  end.

(** Modelled from the spec: the whole scan of [DBSCAN], every point
    unvisited at the start (step 1). *)
Definition assign : assignment * nat :=
  scan (seq 0 n) (fun _ => Unvisited) 0.

(** Modelled from the spec: the results of [DBSCAN], read off the final
    assignment: the members of cluster [c], the noise, and the clusters in
    the order of their ids (step 5). *)
Definition members (st : assignment) (c : nat) : list nat :=
  filter (in_cluster st c) (seq 0 n).

Definition noise_of (st : assignment) : list nat :=
  filter (is_noise st) (seq 0 n).

Definition clusters_of (st : assignment) (k : nat) : list (list nat) :=
  map (members st) (seq 0 k).

(** What holds of the assignment between two steps of the scan, [k]
    clusters found so far: cluster ids are below [k]; a core point with a
    cluster has its whole neighborhood in clusters; a point with a cluster
    is in the neighborhood of a core point with a cluster; and every
    cluster found has at least [minPts] members. *)
Record scanned (st : assignment) (k : nat) : Prop := {
  sc_ids : forall i c, st i = Assigned c -> c < k;
  sc_closed : forall x,
      assigned st x = true -> is_core x = true ->
      forall y, In y (neighborhood x) -> assigned st y = true;
  sc_from : forall x,
      assigned st x = true ->
      exists y, y < n /\ assigned st y = true /\ is_core y = true /\
                In x (neighborhood y);
  sc_sizes : forall c,
      c < k -> (minPts <= Z.of_nat (List.length (members st c)))%Z
}.

End Core.

(** Modelled from the spec: [dbscan.run(points, eps, minPts, distanceFn)]
    of the package [density-clustering], by the contract
    [cluster(points, eps, minPts, distanceFn)] of section 4.2.  The
    parameters are checked first, then the point list; the result is the
    clusters in the order they were found, and the noise (what the source
    reads from [dbscan.noise] at line 149). *)
Definition run (points : list point) (eps : num) (minPts : Z)
    (distanceFn : point -> point -> num)
  : result (list (list nat) * list nat) :=
  if Num.leb eps (Fin 0) || (minPts <? 1)%Z then Throw InvalidParameter
  else
    match points with
    | [] => Throw EmptyInput
    | _ =>
        let n := List.length points in
        let pt i := nth i points (NaN, NaN) in
        let within p q := Num.leb (distanceFn (pt p) (pt q)) eps in
        let '(st, k) := assign n within minPts in
        Ok (clusters_of n st k, noise_of n st)
    end.

End DBSCAN.

(** ** The pipeline ([analyzeLocation], App.jsx lines 108-215)

    From the elements Overpass returned to the cluster summaries; the map,
    the markers and the requests are left out. *)

Inductive outcome : Type :=
| Stopped (status : string)
| Thrown (e : error)
| Summarized (clustersSummary : list ClusterSummary) (noise : list nat).

Section Pipeline.

(** An element of the Overpass answer, and the callback of
    [elements.map] (lines 117-138) that makes a store of it. *)
Variable element : Type.
Variable toStore : element -> store.

Definition analyzeWith (eps : num) (minPts : Z) (elements : list element)
  : outcome :=
  match elements with
  | [] => Stopped "No stores found in that area."
  | _ =>
      let fetchedStores := map toStore elements in
      let points := map (fun s => (Store.lat s, Store.lng s)) fetchedStores in
      match DBSCAN.run points eps minPts haversine with
      | Throw e => Thrown e
      | Ok (clusters, noise) =>
          match clustersSummary fetchedStores clusters with
          | Throw e => Thrown e
          | Ok summaries => Summarized summaries noise
          end
      end
  end.

(** [const eps = 500; const minPts = 3;] *)
Definition eps : num := Fin 500.
Definition minPts : Z := 3.

Definition analyzeLocation : list element -> outcome :=
  analyzeWith eps minPts.

End Pipeline.

(** The distances [Math.max] receives at line 189. *)
Definition distances (l : list store) : list num :=
  map (fun cs => haversine (centroid l) (Store.lat cs, Store.lng cs)) l.

(** ** Sample data *)

Definition shopA : store :=
  Store.mk 1 "A" (Fin 0) (Fin 0) "supermarket" large.
Definition shopB : store :=
  Store.mk 2 "B" (Fin 0) (Fin 0) "bakery" medium.
Definition shopC : store :=
  Store.mk 3 "C" (Fin 0) (Fin 0) "constructor" small.

(** Seven stores on a meridian, 0.003 degrees of latitude (about 334 m)
    apart or at the same place. *)
Definition onMeridian (i : Z) (lat : R) : store :=
  Store.mk i "store" (Fin lat) (Fin 0) "shop" small.

Definition stores7 : list store :=
  [onMeridian 1 (-0.003); onMeridian 2 (-0.003); onMeridian 3 0;
   onMeridian 4 0.003; onMeridian 5 0.006; onMeridian 6 0.009;
   onMeridian 7 0.009].

Definition points7 : list point :=
  map (fun s => (Store.lat s, Store.lng s)) stores7.

(** The position of each of the seven stores, in steps of 0.003 degrees,
    and "within 500 m" on these positions. *)
Definition pos7 (p : nat) : Z := nth p [-1; -1; 0; 1; 2; 3; 3]%Z 0%Z.

Definition within7 (p q : nat) : bool :=
  (p <? 7) && ((q <? 7) && (Z.abs (pos7 p - pos7 q) <=? 1)%Z).

Definition within3 (p q : nat) : bool := (p <? 3) && (q <? 3).

(** A coordinate read by [f] that is finite and between [lo] and [hi]. *)
Definition between (f : store -> num) (lo hi : R) (s : store) : Prop :=
  exists x, f s = Fin x /\ (lo <= x <= hi)%R.

(** ** The heat layer (App.jsx, lines 36-40 and 160-164) *)

(** [const sizeWeight = { small: 0.4, medium: 0.7, large: 1.0 }] *)
Definition sizeWeight : list (string * num) :=
  [("small", Fin 0.4); ("medium", Fin 0.7); ("large", Fin 1)]%string.

(** Whether a number is truthy: neither zero nor [NaN]. *)
Definition truthy (a : num) : bool :=
  match a with
  | Fin x => if Req_dec_T x 0 then false else true
  | NaN => false
  | PosInf | NegInf => true
  end.

Fixpoint own_weight (o : list (string * num)) (k : string) : option num :=
  match o with
  | [] => None
  | (k', w) :: o' => if String.eqb k k' then Some w else own_weight o' k
  end.

(** [sizeWeight[s.size] || 0.5], the size being one of the three names,
    none of which [Object.prototype] has. *)
Definition heatWeight (s : store) : num :=
  match own_weight sizeWeight (size_name (Store.size s)) with
  | Some w => if truthy w then w else Fin 0.5
  | None => Fin 0.5
  end.

(** [fetchedStores.map((s) => [s.lat, s.lng, sizeWeight[s.size] || 0.5])] *)
Definition heatData (fetchedStores : list store) : list (num * num * num) :=
  map (fun s => (Store.lat s, Store.lng s, heatWeight s)) fetchedStores.

(** ** Strings *)

Module Str.

(** [hay.includes(needle)] *)
Fixpoint includes (hay needle : string) : bool :=
String.prefix needle hay ||
match hay with
| EmptyString => false
| String _ hay' => includes hay' needle
end.

(** [s.split(sep)] for a separator that is not empty: the pieces between
  the occurrences of [sep], found from left to right.  [skip] counts the
  characters of a separator still to pass, [piece] is the piece read so
  far. *)
Fixpoint split_from (sep s : string) (skip : nat) (piece : string)
: list string :=
match s with
| EmptyString => [piece]
| String c s' =>
    match skip with
    | S skip' => split_from sep s' skip' piece
    | O =>
        if String.prefix sep s
        then piece :: split_from sep s' (String.length sep - 1) EmptyString
        else split_from sep s' 0 (piece ++ String c EmptyString)
    end
end.

Definition split (sep s : string) : list string :=
split_from sep s 0 EmptyString.

(** [l.filter(Boolean)] on strings: the empty strings go. *)
Definition nonEmpty (l : list string) : list string :=
filter (fun s => negb (String.eqb s EmptyString)) l.

(** The double quote. *)
Definition dq : string := String "034"%char EmptyString.

End Str.

(** ** Elements and the callback of [elements.map] (App.jsx, lines 117-138) *)

Module Element.
(** An element of the Overpass answer.  [tags] is absent or a parsed JSON
  object, given by its entries in the order [Object.values] lists
  them. *)
Record t : Type := mk {
id : Z;
lat : num;
lon : num;
tags : option (list (string * string))
}.
End Element.

Abbreviation element := Element.t.

(** [t[k]] on a parsed JSON object: [None] is [undefined]. *)
Fixpoint tag (t : list (string * string)) (k : string) : option string :=
  match t with
  | [] => None
  | (k', v) :: t' => if String.eqb k k' then Some v else tag t' k
  end.

(** [a || b] on values that are strings or [undefined]. *)
Definition orElse (a b : option string) : option string :=
  match a with
  | Some s => if String.eqb s EmptyString then b else a
  | None => b
  end.

(** A value that [||] passes over: [undefined] or the empty string. *)
Definition blank (a : option string) : Prop :=
  a = None \/ a = Some EmptyString.

Definition bigKeywords : list string :=
  ["supermarket"; "department_store"; "mall"]%string.

Definition medKeywords : list string :=
  ["grocery"; "chemist"; "bakery"; "convenience"]%string.

Section ToStore.

Local Open Scope string_scope.

(** [String.prototype.toLowerCase], which follows the Unicode case
  mapping. *)
Variable toLowerCase : string -> string.

(** [Object.values(el.tags).join(" ").toLowerCase()] *)
Definition allTags (t : list (string * string)) : string :=
toLowerCase (String.concat " " (map snd t)).

Definition inferSize (tags : option (list (string * string))) : size_class :=
match tags with
| None => small
| Some t =>
    if existsb (Str.includes (allTags t)) bigKeywords then large
    else if existsb (Str.includes (allTags t)) medKeywords then medium
    else small
end.

(** [(el.tags && (el.tags.name || el.tags["brand"])) || "Unnamed"] *)
Definition inferName (tags : option (list (string * string))) : string :=
match orElse
        match tags with
        | None => None
        | Some t => orElse (tag t "name") (tag t "brand")
        end
        (Some "Unnamed")
with
| Some s => s
| None => "Unnamed"
end.

(** [el.tags && (el.tags.shop || el.tags.amenity || "shop")], as the
  property key it is used for: [undefined] is the key ["undefined"]. *)
Definition inferType (tags : option (list (string * string))) : string :=
match tags with
| None => "undefined"
| Some t =>
    match orElse (orElse (tag t "shop") (tag t "amenity")) (Some "shop") with
    | Some s => s
    | None => "shop"
    end
end.

Definition toStore (el : element) : store :=
{| Store.id := Element.id el;
   Store.name := inferName (Element.tags el);
   Store.lat := Element.lat el;
   Store.lng := Element.lon el;
   Store.type := inferType (Element.tags el);
   Store.size := inferSize (Element.tags el) |}.

End ToStore.

(** ** [formatAiInsight] (App.jsx, lines 282-306) *)

Section FormatAiInsight.

Local Open Scope string_scope.

(** [toLowerCase] and [trim] follow Unicode; [dropSpaces] removes the
  leading run that [\s*] matches. *)
Variable toLowerCase : string -> string.
Variable trim : string -> string.
Variable dropSpaces : string -> string.

Definition noInsight : string := "<p>No insight available.</p>".

Definition headings : list string :=
["overall store density"; "cluster highlights"; "store type";
 "suggestions"; "conclusion"].

Definition isHeading (s : string) : bool :=
existsb (Str.includes (toLowerCase s)) headings.

(** [line.replace(/^\*\s*/, "")] *)
Definition dropBullet (line : string) : string :=
match line with
| String "*"%char rest => dropSpaces rest
| _ => line
end.

Definition h3 (body : string) : string :=
"<h3 class=" ++ Str.dq ++
"text-base font-semibold mb mt-6 underline underline-offset-4" ++
Str.dq ++ ">" ++ body ++ "</h3>".

Definition p (body : string) : string :=
"<p class=" ++ Str.dq ++ "text-sm mt-1" ++ Str.dq ++ ">" ++ body ++ "</p>".

(** The body of [sections.forEach], from the [html] built so far. *)
Definition renderSection (html s : string) : string :=
  if isHeading s then html ++ h3 (trim s)
  else
    fold_left (fun html line => html ++ p (trim (dropBullet line)))
              (Str.nonEmpty (Str.split (String "010" (String "010" "")) s))
              html.

Definition formatAiInsight (raw : string) : string :=
  if String.eqb raw "" then noInsight
  else fold_left renderSection (Str.nonEmpty (Str.split "**" raw)) "".

(** [formatAiInsight(raw)] on the values the state [aiInsight] holds: a
  string, or [null] as at its start (line 46), here [None].  The guard
  [!raw] holds of [null] and [undefined] as it does of the empty
  string. *)
Definition formatAiInsightOf (raw : option string) : string :=
  match raw with
  | None => noInsight
  | Some s => formatAiInsight s
  end.

End FormatAiInsight.

(** ** Counting members *)

(** The number of stores of [l] whose label [f] is [k]. *)
Definition withLabel (f : store -> string) (k : string) (l : list store) : nat :=
  List.length (filter (fun s => String.eqb (f s) k) l).

(** What a counter holds for a label seen [n] times: nothing, or [n]. *)
Definition counted (n : nat) : option jsval :=
  match n with
  | O => None
  | S _ => Some (VNum n)
  end.

(** A counter with a value that is not a number. *)
Definition poisoned (o : obj) : Prop :=
  exists k s, Obj.get_own o k = Some (VStr s) /\ s <> EmptyString.

(** A counter whose values are numbers adding up to [t] and which has no
    own property under a name of [Object.prototype]. *)
Definition clean (o : obj) (t : nat) : Prop :=
  Obj.total o = Some t /\
  forall k, Obj.inherited k <> None -> Obj.get_own o k = None.


(** A text that is empty or starts with the opening of an [h3] or [p]
    element of [formatAiInsight]. *)
Definition tagged (html : string) : Prop :=
  html = EmptyString \/
  exists rest, html = ("<h3 class=" ++ rest)%string \/
               html = ("<p class=" ++ rest)%string.

(** * Properties *)

(** ** Arithmetic on JavaScript numbers *)

Section NumFacts.

Local Open Scope R_scope.

Lemma div_fin (x y : R) : y <> 0 -> Num.div (Fin x) (Fin y) = Fin (x / y).
Proof.
  intros Hy. unfold Num.div. destruct (Req_dec_T y 0); [contradiction | reflexivity].
Qed.

Lemma inf_times_opp (x : R) : Num.inf_times (- x) = Num.neg (Num.inf_times x).
Proof.
  unfold Num.inf_times.
  destruct (total_order_T (- x) 0) as [[H | H] | H];
    destruct (total_order_T x 0) as [[H' | H'] | H']; try reflexivity; lra.
Qed.

Lemma neg_involutive (a : num) : Num.neg (Num.neg a) = a.
Proof. destruct a; simpl; try reflexivity. f_equal. lra. Qed.

Lemma sub_swap (a b : num) : Num.sub a b = Num.neg (Num.sub b a).
Proof.
  destruct a, b; simpl; try reflexivity. f_equal. lra.
Qed.

Lemma mul_comm (a b : num) : Num.mul a b = Num.mul b a.
Proof.
  destruct a, b; simpl; try reflexivity. f_equal. lra.
Qed.

Lemma mul_neg_l (a b : num) : Num.mul (Num.neg a) b = Num.neg (Num.mul a b).
Proof.
  destruct a, b; simpl; try reflexivity;
    try (f_equal; lra);
    try (rewrite inf_times_opp; reflexivity);
    try (rewrite inf_times_opp, neg_involutive; reflexivity);
    try (rewrite neg_involutive; reflexivity).
Qed.

Lemma pow2_neg (a : num) : Num.pow2 (Num.neg a) = Num.pow2 a.
Proof.
  unfold Num.pow2. rewrite mul_neg_l, (mul_comm a (Num.neg a)), mul_neg_l.
  apply neg_involutive.
Qed.

Lemma div_neg_pos (a : num) (y : R) :
  0 < y -> Num.div (Num.neg a) (Fin y) = Num.neg (Num.div a (Fin y)).
Proof.
  intros Hy. destruct a; simpl; try reflexivity.
  - destruct (Req_dec_T y 0); [lra |]. simpl. f_equal. field. lra.
  - destruct (Rlt_dec y 0); [lra | reflexivity].
  - destruct (Rlt_dec y 0); [lra | reflexivity].
Qed.

Lemma sin_neg (a : num) : Math.sin (Num.neg a) = Num.neg (Math.sin a).
Proof.
  destruct a; simpl; try reflexivity. f_equal. apply Rtrigo1.sin_neg.
Qed.

Lemma toRad_fin (x : R) : toRad (Fin x) = Fin (x * PI / 180).
Proof. unfold toRad, Math.PI. simpl Num.mul. apply div_fin. lra. Qed.

Lemma toRad_neg (a : num) : toRad (Num.neg a) = Num.neg (toRad a).
Proof.
  unfold toRad. rewrite mul_neg_l. apply div_neg_pos. lra.
Qed.

End NumFacts.

(** ** The distance *)

Section HaversineFacts.

Local Open Scope R_scope.

Lemma sin_half_sqr (d : R) : Rsqr (sin (d / 2)) = (1 - cos d) / 2.
Proof.
  replace (cos d) with (cos (2 * (d / 2))) by (f_equal; field).
  rewrite cos_2a_sin. unfold Rsqr. field.
Qed.

Lemma hav_range (lat1 lng1 lat2 lng2 : R) :
  0 <= hav lat1 lng1 lat2 lng2 <= 1.
Proof.
  unfold hav. rewrite !sin_half_sqr.
  replace ((lat2 - lat1) * PI / 180)
    with (lat2 * PI / 180 - lat1 * PI / 180) by field.
  rewrite cos_minus.
  set (u := lat1 * PI / 180). set (v := lat2 * PI / 180).
  set (c := cos ((lng2 - lng1) * PI / 180)).
  assert (Hu := sin2_cos2 u). assert (Hv := sin2_cos2 v).
  assert (Hc : -1 <= c <= 1) by apply COS_bound.
  unfold Rsqr in Hu, Hv.
  set (su := sin u) in *. set (cu := cos u) in *.
  set (sv := sin v) in *. set (cv := cos v) in *.
  clearbody su cu sv cv c. clear u v.
  assert (H1 := Rle_0_sqr (su - sv)).
  assert (H2 := Rle_0_sqr (su + sv)).
  assert (H3 := Rle_0_sqr (cu - c * cv)).
  assert (H4 := Rle_0_sqr (cu + c * cv)).
  assert (H5 : 0 <= cv * cv * (1 - c * c)) by (apply Rmult_le_pos; nra).
  unfold Rsqr in H1, H2, H3, H4.
  split; nra.
Qed.

Lemma haversine_fin (lat1 lng1 lat2 lng2 : R) :
  haversine (Fin lat1, Fin lng1) (Fin lat2, Fin lng2)
  = Fin (haversineR lat1 lng1 lat2 lng2).
Proof.
  assert (Hr := hav_range lat1 lng1 lat2 lng2).
  unfold haversine, haversineR. cbn [fst snd].
  unfold Num.sub. cbn [Num.neg Num.add].
  rewrite !toRad_fin.
  rewrite !div_fin by lra.
  cbn [Math.sin Math.cos Num.pow2 Num.mul Num.add Num.neg].
  fold (Rsqr (sin ((lat2 + - lat1) * PI / 180 / 2))).
  fold (Rsqr (sin ((lng2 + - lng1) * PI / 180 / 2))).
  change (lat2 + - lat1) with (lat2 - lat1).
  change (lng2 + - lng1) with (lng2 - lng1).
  fold (hav lat1 lng1 lat2 lng2).
  set (a := hav lat1 lng1 lat2 lng2) in *.
  unfold Math.sqrt.
  destruct (Rlt_dec a 0); [lra |].
  destruct (Rlt_dec (1 + - a) 0); [lra |].
  cbn [Math.atan2 Num.mul]. reflexivity.
Qed.

Lemma haversine_sym (p q : point) : haversine p q = haversine q p.
Proof.
  destruct p as [lat1 lng1], q as [lat2 lng2].
  unfold haversine. cbn [fst snd].
  rewrite (sub_swap lat2 lat1), (sub_swap lng2 lng1).
  rewrite !toRad_neg, !div_neg_pos, !sin_neg, !pow2_neg by lra.
  rewrite (mul_comm (Math.cos (toRad lat1)) (Math.cos (toRad lat2))).
  reflexivity.
Qed.

Lemma Ratan2_0_1 : Math.Ratan2 0 1 = 0.
Proof.
  unfold Math.Ratan2.
  destruct (total_order_T 1 0) as [[H | H] | H]; try lra.
  replace (0 / 1) with 0 by field. apply atan_0.
Qed.

Lemma haversineR_same (lat lng : R) : haversineR lat lng lat lng = 0.
Proof.
  unfold haversineR.
  assert (Ha : hav lat lng lat lng = 0).
  { unfold hav.
    replace ((lat - lat) * PI / 180 / 2) with 0 by field.
    replace ((lng - lng) * PI / 180 / 2) with 0 by field.
    rewrite sin_0. unfold Rsqr. ring. }
  rewrite Ha, sqrt_0.
  replace (1 - 0) with 1 by ring. rewrite sqrt_1, Ratan2_0_1. ring.
Qed.

End HaversineFacts.

(** C9.  The great-circle distance is symmetric, and the distance from a
    point to itself is 0: for all finite coordinates, [haversine a b] and
    [haversine b a] are the same value, and [haversine a a] is 0. *)
Theorem haversine_symmetric_and_zero :
  forall lat1 lng1 lat2 lng2 : R,
    haversine (Fin lat1, Fin lng1) (Fin lat2, Fin lng2)
    = haversine (Fin lat2, Fin lng2) (Fin lat1, Fin lng1)
    /\ haversine (Fin lat1, Fin lng1) (Fin lat1, Fin lng1) = Fin 0.
Proof.
  intros. split; [apply haversine_sym |].
  rewrite haversine_fin, haversineR_same. reflexivity.
Qed.

(** ** The cluster summary *)

Section SummaryFacts.

Local Open Scope R_scope.

Lemma finite_inv (a : num) : Num.is_finite a -> exists x, a = Fin x.
Proof. destruct a; simpl; intros H; try contradiction. eauto. Qed.

Lemma fold_add_fin (f : store -> num) (l : list store) :
  Forall (fun s => Num.is_finite (f s)) l ->
  forall x, exists y, fold_left (fun s it => Num.add s (f it)) l (Fin x) = Fin y.
Proof.
  induction 1 as [| s l Hs _ IH]; intros x; simpl.
  - eauto.
  - destruct (finite_inv _ Hs) as [v ->]. simpl. apply IH.
Qed.

Lemma INR_length_pos (A : Type) (l : list A) : l <> [] -> 0 < INR (List.length l).
Proof.
  destruct l; [congruence | intros _].
  apply lt_0_INR. simpl. lia.
Qed.

Lemma centroid_fin (l : list store) :
  l <> [] -> Forall finite_store l ->
  exists x y, centroid l = (Fin x, Fin y).
Proof.
  intros Hne Hfin. unfold centroid, latSum, lngSum, Num.of_nat.
  destruct (fold_add_fin Store.lat (l := l)) with (x := 0) as [x Hx].
  { eapply Forall_impl; [| exact Hfin]. intros s Hs. apply Hs. }
  destruct (fold_add_fin Store.lng (l := l)) with (x := 0) as [y Hy].
  { eapply Forall_impl; [| exact Hfin]. intros s Hs. apply Hs. }
  rewrite Hx, Hy.
  assert (Hn := INR_length_pos Hne).
  rewrite !div_fin by lra. eauto.
Qed.

(** The running maximum of [Math.max(...ds)] over finite numbers. *)
Lemma fold_max_fin (ds : list num) :
  Forall Num.is_finite ds ->
  forall a, exists m,
    fold_left Math.max ds (Fin a) = Fin m /\ a <= m /\
    (forall d, In (Fin d) ds -> d <= m) /\
    (m = a \/ In (Fin m) ds).
Proof.
  induction 1 as [| d ds Hd _ IH]; intros a; simpl.
  - exists a. repeat split; [lra | intros d [] | now left].
  - destruct (finite_inv _ Hd) as [x ->]. simpl.
    destruct (IH (Rmax a x)) as (m & Hm & Hle & Hub & Hin).
    exists m. split; [exact Hm |].
    assert (Ha := Rmax_l a x). assert (Hx := Rmax_r a x).
    split; [lra |]. split.
    + intros d [Hd' | Hd']; [injection Hd' as <-; lra | auto].
    + destruct Hin as [-> | Hin]; [| right; right; exact Hin].
      unfold Rmax. destruct (Rle_dec a x); [right; left; reflexivity | left; reflexivity].
Qed.

Lemma max_of_fin (ds : list num) :
  Forall Num.is_finite ds -> ds <> [] ->
  exists m, Math.max_of ds = Fin m /\ In (Fin m) ds /\
            forall d, In (Fin d) ds -> d <= m.
Proof.
  intros Hfin Hne. destruct ds as [| d ds]; [congruence |].
  inversion Hfin as [| ? ? Hd Hds]; subst.
  destruct (finite_inv _ Hd) as [x ->].
  unfold Math.max_of. simpl.
  destruct (fold_max_fin Hds x) as (m & Hm & Hle & Hub & Hin).
  exists m. split; [exact Hm |]. split.
  - destruct Hin as [-> | Hin]; [left; reflexivity | right; exact Hin].
  - intros d [Hd' | Hd']; [injection Hd' as <-; lra | auto].
Qed.

Lemma distances_fin (l : list store) :
  l <> [] -> Forall finite_store l -> Forall Num.is_finite (distances l).
Proof.
  intros Hne Hfin. destruct (centroid_fin Hne Hfin) as (cx & cy & Hc).
  unfold distances. rewrite Hc. apply Forall_map.
  eapply Forall_impl; [| exact Hfin].
  intros s [Hlat Hlng].
  destruct (finite_inv _ Hlat) as [x ->], (finite_inv _ Hlng) as [y ->].
  rewrite haversine_fin. exact I.
Qed.

Lemma distances_finite (l : list store) :
  Forall finite_store l -> Forall Num.is_finite (distances l).
Proof.
  intros Hfin. destruct l as [| s0 l0] eqn:El; [constructor |].
  rewrite <- El in *. apply distances_fin; [rewrite El; discriminate | exact Hfin].
Qed.

(** When the distances [Math.max] receives are numbers, the radius is a
    finite number, at least 100, an upper bound of the members' distances
    to the centroid, and either 100 or one of these distances. *)
Lemma radius_of_distances (l : list store) :
  Forall Num.is_finite (distances l) ->
  exists r, radiusMeters l = Fin r /\ 100 <= r /\
    (forall s, In s l ->
       exists d, haversine (centroid l) (Store.lat s, Store.lng s) = Fin d
                 /\ d <= r) /\
    (r = 100 \/
     exists s, In s l /\
               haversine (centroid l) (Store.lat s, Store.lng s) = Fin r).
Proof.
  intros Hd. unfold radiusMeters, maxDist. fold (distances l).
  destruct l as [| s0 l0] eqn:El.
  - exists 100. simpl. repeat split; [lra | intros s [] | now left].
  - rewrite <- El in *. assert (Hne : l <> []) by (rewrite El; discriminate).
    destruct (max_of_fin Hd) as (m & Hm & Hin & Hub).
    { unfold distances. rewrite El. discriminate. }
    rewrite Hm. simpl. exists (Rmax m 100).
    assert (H1 := Rmax_l m 100). assert (H2 := Rmax_r m 100).
    split; [reflexivity |]. split; [lra |]. split.
    + intros s Hs.
      assert (Hds : In (haversine (centroid l) (Store.lat s, Store.lng s))
                       (distances l)).
      { unfold distances. apply in_map_iff. eauto. }
      rewrite Forall_forall in Hd.
      destruct (finite_inv _ (Hd _ Hds)) as [d Ed].
      exists d. split; [exact Ed |].
      rewrite Ed in Hds. apply Hub in Hds. lra.
    + unfold Rmax. destruct (Rle_dec m 100); [now left | right].
      unfold distances in Hin. apply in_map_iff in Hin.
      destruct Hin as (s & Hs & Hin). eauto.
Qed.

Lemma radius_spec (l : list store) :
  Forall finite_store l ->
  exists r, radiusMeters l = Fin r /\ 100 <= r /\
    (forall s, In s l ->
       exists d, haversine (centroid l) (Store.lat s, Store.lng s) = Fin d
                 /\ d <= r) /\
    (r = 100 \/
     exists s, In s l /\
               haversine (centroid l) (Store.lat s, Store.lng s) = Fin r).
Proof. intros Hfin. apply radius_of_distances, distances_finite, Hfin. Qed.

Lemma PI_hundredth : 0.0001 < PI * 0.01.
Proof. assert (H := PI2_3_2). lra. Qed.

(** The area, the guard of the density and the density itself, from a
    radius that is a number. *)
Lemma area_of_distances (l : list store) :
  Forall Num.is_finite (distances l) ->
  exists a, areaKm2 l = Fin a /\ PI * 0.01 <= a /\
    Math.max (areaKm2 l) (Fin 0.0001) = Fin a /\
    densityPerKm2 l = Fin (INR (List.length l) / a).
Proof.
  intros Hfin. destruct (@radius_of_distances l Hfin) as (r & Hr & Hr100 & _).
  unfold densityPerKm2, areaKm2, Math.PI. rewrite Hr.
  rewrite div_fin by lra. simpl Num.pow2. simpl Num.mul.
  set (a := PI * (r / 1000 * (r / 1000))).
  assert (Hpi := PI_RGT_0). assert (Hh := PI_hundredth).
  assert (Ha : PI * 0.01 <= a).
  { unfold a. apply Rmult_le_compat_l; [lra |]. nra. }
  exists a. split; [reflexivity |]. split; [exact Ha |].
  assert (Hmax : Math.max (Fin a) (Fin 0.0001) = Fin a).
  { simpl. f_equal. apply Rmax_left. lra. }
  split; [exact Hmax |].
  rewrite Hmax. unfold Num.of_nat. apply div_fin. lra.
Qed.

Lemma area_spec (l : list store) :
  Forall finite_store l ->
  exists a, areaKm2 l = Fin a /\ PI * 0.01 <= a /\
    Math.max (areaKm2 l) (Fin 0.0001) = Fin a /\
    densityPerKm2 l = Fin (INR (List.length l) / a).
Proof. intros Hfin. apply area_of_distances, distances_finite, Hfin. Qed.



End SummaryFacts.








(** ** A cluster with no member *)

Lemma Zfloor_half : Zfloor (0 * 10 + / 2) = 0%Z.
Proof.
  assert (H := Zfloor_bound (0 * 10 + / 2)).
  assert (H1 : (IZR (-1) < IZR (Zfloor (0 * 10 + / 2)))%R) by (simpl; lra).
  assert (H2 : (IZR (Zfloor (0 * 10 + / 2)) < IZR 1)%R) by (simpl; lra).
  apply lt_IZR in H1, H2. lia.
Qed.

Lemma summary_nil (idx : nat) :
  summary [] idx =
  {| Summary.id := idx;
     Summary.centroid := (NaN, NaN);
     Summary.radiusMeters := Fin 100;
     Summary.storeCount := 0;
     Summary.densityPerKm2 := Fin 0;
     Summary.densityScore := Fin 0;
     Summary.types := [];
     Summary.sizes := [];
     Summary.stores := [] |}.
Proof.
  assert (Hc : centroid [] = (NaN, NaN)).
  { unfold centroid, latSum, lngSum, Num.of_nat. simpl.
    destruct (Req_dec_T 0 0) as [_ | H]; [| lra].
    unfold Num.inf_times.
    destruct (total_order_T 0 0) as [[H | H] | H]; try lra. reflexivity. }
  assert (Hd : densityPerKm2 [] = Fin 0).
  { destruct (@area_spec []) as (a & _ & Ha & _ & Hd); [constructor |].
    rewrite Hd. simpl. f_equal. assert (Hh := PI_hundredth).
    unfold Rdiv. apply Rmult_0_l. }
  assert (Hs : densityScore [] = Fin 0).
  { unfold densityScore. rewrite Hd. simpl.
    rewrite Rmin_right by lra. rewrite Zfloor_half. reflexivity. }
  unfold summary. rewrite Hc, Hd, Hs. reflexivity.
Qed.

(** C7, as the code has it.  Summarizing a cluster with no member does not
    fail: for any store list and any position, the callback of
    [clusters.map] returns a summary with store count 0, a [NaN] centroid,
    radius 100, density 0, density score 0 and empty breakdowns. *)
Theorem summary_of_no_member :
  forall (fetchedStores : list store) (idx : nat),
    clustersSummary_from idx fetchedStores [[]] =
    Ok [ {| Summary.id := idx;
            Summary.centroid := (NaN, NaN);
            Summary.radiusMeters := Fin 100;
            Summary.storeCount := 0;
            Summary.densityPerKm2 := Fin 0;
            Summary.densityScore := Fin 0;
            Summary.types := [];
            Summary.sizes := [];
            Summary.stores := [] |} ].
Proof.
  intros fetchedStores idx. simpl. rewrite summary_nil. reflexivity.
Qed.

(** C7, as stated, fails: on the cluster list [[[]]] the summarizer throws
    nothing and returns one summary. *)
Lemma summary_of_no_member_is_not_an_error :
  (exists s, clustersSummary [shopA] [[]] = Ok [s]) /\
  ~ (exists e, clustersSummary [shopA] [[]] = Throw e).
Proof.
  split.
  - eexists. reflexivity.
  - intros [e He]. discriminate He.
Qed.

(** ** The breakdowns *)

Section BreakdownFacts.

(** [o[k] = (o[k] || 0) + 1], for a key that [Object.prototype] does not
    have, on an object whose values are numbers: one more is counted. *)
Lemma set_own_total (k : string) (o : obj) :
  forall t, Obj.total o = Some t ->
  Obj.total
    (Obj.set_own o k
       match Obj.get_own o k with
       | Some (VNum n) => VNum (n + 1)
       | _ => VNum 1
       end) = Some (t + 1).
Proof.
  induction o as [| [k' v'] o IH]; intros t Ht; simpl in *.
  - injection Ht as <-. reflexivity.
  - destruct v' as [n | s]; [| discriminate].
    destruct (Obj.total o) as [t' |] eqn:Et; [| discriminate].
    injection Ht as <-.
    destruct (String.eqb k k'); simpl.
    + rewrite Et. simpl. f_equal. lia.
    + rewrite (IH t' eq_refl). simpl. f_equal. lia.
Qed.

Lemma get_own_total_num (k : string) (o : obj) :
  forall t s, Obj.total o = Some t -> Obj.get_own o k <> Some (VStr s).
Proof.
  induction o as [| [k' v'] o IH]; intros t s Ht; simpl in *.
  - discriminate.
  - destruct v' as [n | s']; [| discriminate].
    destruct (Obj.total o) as [t' |] eqn:Et; [| discriminate].
    destruct (String.eqb k k'); [discriminate | eapply IH; reflexivity].
Qed.

Lemma inherited_None_proto (k : string) :
  Obj.inherited k = None -> String.eqb k "__proto__" = false.
Proof.
  unfold Obj.inherited.
  destruct (String.eqb k "constructor"); [discriminate |].
  destruct (String.eqb k "__proto__"); [discriminate | reflexivity].
Qed.

Lemma bump_total (k : string) (o : obj) (t : nat) :
  Obj.inherited k = None ->
  Obj.total o = Some t ->
  Obj.total (Obj.bump o k) = Some (t + 1).
Proof.
  intros Hk Ht. unfold Obj.bump, Obj.set, Obj.or0_plus1.
  rewrite (inherited_None_proto _ Hk), Hk.
  assert (H := set_own_total k o Ht).
  destruct (Obj.get_own o k) as [[n | s] |] eqn:Eg.
  - exact H.
  - exfalso. exact (get_own_total_num k o Ht Eg).
  - exact H.
Qed.

Lemma size_name_own (z : size_class) : Obj.inherited (size_name z) = None.
Proof. destruct z; reflexivity. Qed.

(** The [forEach] of lines 199-202 from any two counters. *)
Lemma breakdown_fold (l : list store) :
  forall (types sizes : obj) (t u : nat),
    Forall (fun s => Obj.inherited (Store.type s) = None) l ->
    Obj.total types = Some t -> Obj.total sizes = Some u ->
    let r := fold_left
               (fun '(types, sizes) s =>
                  (Obj.bump types (Store.type s),
                   Obj.bump sizes (size_name (Store.size s))))
               l (types, sizes) in
    Obj.total (fst r) = Some (t + List.length l) /\
    Obj.total (snd r) = Some (u + List.length l).
Proof.
  induction l as [| s l IH]; intros types sizes t u Hl Ht Hu; simpl.
  - rewrite !Nat.add_0_r. auto.
  - inversion Hl as [| ? ? Hs Hl']; subst.
    destruct (IH (Obj.bump types (Store.type s))
                 (Obj.bump sizes (size_name (Store.size s)))
                 (t + 1) (u + 1) Hl') as [H1 H2].
    + apply bump_total; assumption.
    + apply bump_total; [apply size_name_own | assumption].
    + simpl in H1, H2. rewrite H1, H2. split; f_equal; lia.
Qed.

(** The size counts always add up to the store count. *)
Lemma sizes_fold (l : list store) :
  forall (types sizes : obj) (u : nat),
    Obj.total sizes = Some u ->
    Obj.total
      (snd (fold_left
              (fun '(types, sizes) s =>
                 (Obj.bump types (Store.type s),
                  Obj.bump sizes (size_name (Store.size s))))
              l (types, sizes))) = Some (u + List.length l).
Proof.
  induction l as [| s l IH]; intros types sizes u Hu; simpl.
  - rewrite Nat.add_0_r. exact Hu.
  - rewrite (IH _ _ (u + 1)).
    + f_equal. lia.
    + apply bump_total; [apply size_name_own | assumption].
Qed.

End BreakdownFacts.

(** Breakdown consistency for category labels that are not names of
    properties of [Object.prototype]: both breakdowns add up to the store
    count. *)
Lemma breakdown_totals :
  forall (clusterStores : list store) (idx : nat),
    Forall (fun s => Obj.inherited (Store.type s) = None) clusterStores ->
    let s := summary clusterStores idx in
    Obj.total (Summary.types s) = Some (Summary.storeCount s) /\
    Obj.total (Summary.sizes s) = Some (Summary.storeCount s).
Proof.
  intros clusterStores idx Hl. simpl. unfold breakdown.
  apply (@breakdown_fold clusterStores [] [] 0 0 Hl eq_refl eq_refl).
Qed.

(** The size breakdown adds up to the store count for every cluster. *)
Lemma sizes_total :
  forall (clusterStores : list store) (idx : nat),
    Obj.total (Summary.sizes (summary clusterStores idx))
    = Some (Summary.storeCount (summary clusterStores idx)).
Proof.
  intros clusterStores idx. simpl. unfold breakdown.
  apply (@sizes_fold clusterStores [] [] 0 eq_refl).
Qed.

(** C4 at a cluster with a store of category ["constructor"]: three stores
    are counted and the sizes add up to 3, but [types["constructor"]] is
    read from [Object.prototype], so the entry becomes a string and the
    category counts are not three numbers adding up to 3. *)
Theorem breakdown_with_inherited_key :
  let s := summary [shopA; shopB; shopC] 0 in
  Summary.storeCount s = 3 /\
  Obj.total (Summary.sizes s) = Some 3 /\
  Summary.types s =
    [("supermarket", VNum 1); ("bakery", VNum 1);
     ("constructor", VStr "function Object() { [native code] }1")]%string /\
  Obj.total (Summary.types s) = None.
Proof. vm_compute. repeat split. Qed.

(** ** The clusterer *)

Section ListFacts.

Lemma filter_length_mono (A : Type) (f g : A -> bool) (l : list A) :
  (forall x, In x l -> f x = true -> g x = true) ->
  List.length (filter f l) <= List.length (filter g l).
Proof.
  induction l as [| a l IH]; intros H; simpl; [lia |].
  assert (IH' : List.length (filter f l) <= List.length (filter g l)).
  { apply IH. intros x Hx. apply H. now right. }
  destruct (f a) eqn:Ef.
  - rewrite (H a (or_introl eq_refl) Ef). simpl. lia.
  - destruct (g a); simpl; lia.
Qed.

Lemma filter_length_strict (A : Type) (f g : A -> bool) (l : list A) (a : A) :
  (forall x, In x l -> f x = true -> g x = true) ->
  In a l -> f a = false -> g a = true ->
  List.length (filter f l) < List.length (filter g l).
Proof.
  induction l as [| b l IH]; intros H Ha Hf Hg; simpl; [destruct Ha |].
  assert (Hle : List.length (filter f l) <= List.length (filter g l)).
  { apply filter_length_mono. intros x Hx. apply H. now right. }
  destruct Ha as [-> | Ha].
  - rewrite Hf, Hg. simpl. lia.
  - assert (IH' : List.length (filter f l) < List.length (filter g l)).
    { apply IH; auto. intros x Hx. apply H. now right. }
    destruct (f b) eqn:Ef.
    + rewrite (H b (or_introl eq_refl) Ef). simpl. lia.
    + destruct (g b); simpl; lia.
Qed.

Lemma count_occ_filter_seq (f : nat -> bool) (n i : nat) :
  count_occ Nat.eq_dec (filter f (seq 0 n)) i
  = if (i <? n) && f i then 1 else 0.
Proof.
  assert (Hnd : NoDup (filter f (seq 0 n))) by (apply NoDup_filter, seq_NoDup).
  destruct ((i <? n) && f i) eqn:E.
  - apply andb_prop in E. destruct E as [Hi Hf]. apply Nat.ltb_lt in Hi.
    apply NoDup_count_occ'; [exact Hnd |].
    apply filter_In. split; [apply in_seq; lia | exact Hf].
  - apply count_occ_not_In. intros Hin. apply filter_In in Hin.
    destruct Hin as [Hin Hf]. apply in_seq in Hin.
    assert (Hi : (i <? n) = true) by (apply Nat.ltb_lt; lia).
    rewrite Hi, Hf in E. discriminate.
Qed.

End ListFacts.

Section CoreFacts.

Import DBSCAN.

Variable n : nat.
Variable within : nat -> nat -> bool.
Variable minPts : Z.

Local Abbreviation N := (neighborhood n within).
Local Abbreviation core := (is_core n within minPts).
Local Abbreviation unassigned := (DBSCAN.unassigned n).
Local Abbreviation expanded := (DBSCAN.expanded n within minPts).

Lemma in_neighborhood (p q : nat) :
  In q (N p) <-> q < n /\ (q = p \/ within p q = true).
Proof.
  unfold neighborhood. rewrite filter_In, in_seq, orb_true_iff, Nat.eqb_eq.
  intuition lia.
Qed.

Lemma self_in_neighborhood (p : nat) : p < n -> In p (N p).
Proof. intros Hp. apply in_neighborhood. auto. Qed.

Lemma neighborhood_lt (p : nat) : Forall (fun q => q < n) (N p).
Proof. apply Forall_forall. intros q Hq. apply in_neighborhood in Hq. tauto. Qed.

Lemma neighborhood_NoDup (p : nat) : NoDup (N p).
Proof. apply NoDup_filter, seq_NoDup. Qed.

Lemma in_add_pending (pending qs : list nat) (x : nat) :
  In x (add_pending pending qs) <-> In x pending \/ In x qs.
Proof.
  unfold add_pending. rewrite in_app_iff, filter_In. split.
  - tauto.
  - intros [H | H]; [now left |].
    destruct (existsb (Nat.eqb x) pending) eqn:E.
    + left. apply existsb_exists in E. destruct E as (y & Hy & Exy).
      apply Nat.eqb_eq in Exy. now subst.
    + right. split; [exact H | reflexivity].
Qed.

Lemma unassigned_le (st : assignment) : unassigned st <= n.
Proof.
  unfold DBSCAN.unassigned.
  eapply Nat.le_trans; [apply List.filter_length_le |].
  rewrite length_seq. lia.
Qed.

Lemma assigned_upd (st : assignment) (q c i : nat) :
  assigned (upd st q (Assigned c)) i = (i =? q) || assigned st i.
Proof. unfold assigned, upd. destruct (i =? q); reflexivity. Qed.

Lemma unassigned_upd (st : assignment) (q c : nat) :
  q < n -> assigned st q = false ->
  unassigned (upd st q (Assigned c)) < unassigned st.
Proof.
  intros Hq Hst. unfold DBSCAN.unassigned.
  apply filter_length_strict with (a := q).
  - intros x _. rewrite assigned_upd, negb_orb. intros H.
    apply andb_prop in H. tauto.
  - apply in_seq. lia.
  - rewrite assigned_upd, Nat.eqb_refl. reflexivity.
  - rewrite Hst. reflexivity.
Qed.

Lemma unassigned_pos (st : assignment) (q : nat) :
  q < n -> assigned st q = false -> 0 < unassigned st.
Proof.
  intros Hq Hst.
  assert (H := unassigned_upd st 0 Hq Hst). lia.
Qed.

Lemma expand_eq (fuel c : nat) (pending : list nat) (st : assignment) :
  expand n within minPts fuel c pending st =
  match pending with
  | [] => st
  | q :: rest =>
      if assigned st q then expand n within minPts fuel c rest st
      else
        match fuel with
        | O => st
        | S fuel' =>
            let st' := upd st q (Assigned c) in
            if core q
            then expand n within minPts fuel' c (add_pending rest (N q)) st'
            else expand n within minPts fuel' c rest st'
        end
  end.
Proof. destruct fuel, pending; reflexivity. Qed.

Lemma expanded_nil (c : nat) (st : assignment) : expanded c [] st st.
Proof.
  constructor.
  - reflexivity.
  - intros i. now left.
  - intros q [].
  - intros q H1 H2. congruence.
  - intros q H1 H2. congruence.
Qed.

Lemma expanded_skip (c q : nat) (rest : list nat) (st st' : assignment) :
  assigned st q = true ->
  expanded c rest st st' -> expanded c (q :: rest) st st'.
Proof.
  intros Hq [K Nw P Cl Fr]. constructor.
  - exact K.
  - exact Nw.
  - intros x [<- | Hx]; [| auto].
    unfold assigned in *. rewrite (K _ Hq). exact Hq.
  - exact Cl.
  - intros x H1 H2. destruct (Fr x H1 H2) as [H | H]; [left; now right | now right].
Qed.

Lemma expanded_step (c q : nat) (rest pending' : list nat)
    (st st' : assignment) :
  q < n -> assigned st q = false ->
  (forall x, In x rest -> In x pending') ->
  (forall x, In x pending' -> In x rest \/ (core q = true /\ In x (N q))) ->
  (core q = true -> forall x, In x (N q) -> In x pending') ->
  expanded c pending' (upd st q (Assigned c)) st' ->
  expanded c (q :: rest) st st'.
Proof.
  intros Hq Hst Hsub Hsup Hcore [K Nw P Cl Fr].
  set (st1 := upd st q (Assigned c)) in *.
  assert (Hq1 : assigned st1 q = true).
  { unfold st1. rewrite assigned_upd, Nat.eqb_refl. reflexivity. }
  assert (Hq' : st' q = Assigned c).
  { rewrite (K _ Hq1). unfold st1, upd. rewrite Nat.eqb_refl. reflexivity. }
  assert (Hne : forall i, i <> q -> st1 i = st i).
  { intros i Hi. unfold st1, upd. apply Nat.eqb_neq in Hi. rewrite Hi. reflexivity. }
  assert (Hne' : forall i, i <> q -> assigned st1 i = assigned st i).
  { intros i Hi. unfold assigned. rewrite (Hne i Hi). reflexivity. }
  constructor.
  - intros i Hi. assert (i <> q) by congruence.
    rewrite K; [apply Hne; assumption |]. rewrite Hne'; assumption.
  - intros i. destruct (Nat.eq_dec i q) as [-> | Hi].
    + right. auto.
    + destruct (Nw i) as [H | H]; [left; rewrite H; auto | now right].
  - intros x [<- | Hx].
    + unfold assigned. rewrite Hq'. reflexivity.
    + auto.
  - intros z Hz Hz' Hc x Hx. destruct (Nat.eq_dec z q) as [-> | Hzq].
    + apply P. apply Hcore; assumption.
    + apply (Cl z); auto. rewrite Hne'; assumption.
  - intros z Hz Hz'. destruct (Nat.eq_dec z q) as [-> | Hzq]; [left; now left |].
    assert (Hz1 : assigned st1 z = false) by (rewrite Hne'; assumption).
    destruct (Fr z Hz1 Hz') as [Hin | (y & Hy & Hy1 & Hy' & Hin)].
    + destruct (Hsup z Hin) as [H | [Hc H]]; [left; now right |].
      right. exists q. repeat split; auto.
      unfold assigned. rewrite Hq'. reflexivity.
    + right. exists y. repeat split; auto.
      destruct (Nat.eq_dec y q) as [-> | Hyq]; [congruence |].
      rewrite <- Hne'; assumption.
Qed.

(** The fuel is enough as soon as it covers the points without a
    cluster, and then the expansion is complete. *)
Lemma expand_fuel (c : nat) :
  forall (fuel : nat) (pending : list nat) (st : assignment),
    unassigned st <= fuel ->
    Forall (fun q => q < n) pending ->
    expanded c pending st (expand n within minPts fuel c pending st).
Proof.
  induction fuel as [| fuel IHf]; intros pending;
    induction pending as [| q rest IHp]; intros st Hfuel Hlt;
    rewrite expand_eq; try apply expanded_nil;
    inversion Hlt as [| ? ? Hq Hrest]; subst;
    destruct (assigned st q) eqn:Hst;
    try (apply expanded_skip; [exact Hst | apply IHp; assumption]).
  - exfalso. assert (H := unassigned_pos st Hq Hst). lia.
  - assert (Hf : unassigned (upd st q (Assigned c)) <= fuel).
    { assert (H := unassigned_upd st c Hq Hst). lia. }
    cbv zeta. destruct (core q) eqn:Hc.
    + apply expanded_step with (pending' := add_pending rest (N q));
        [exact Hq | exact Hst | | | |].
      * intros x Hx. apply in_add_pending. now left.
      * intros x Hx. apply in_add_pending in Hx. tauto.
      * intros _ x Hx. apply in_add_pending. now right.
      * apply IHf; [exact Hf |].
        apply Forall_forall. intros x Hx. apply in_add_pending in Hx.
        rewrite Forall_forall in Hrest.
        destruct Hx as [Hx | Hx]; [auto | apply in_neighborhood in Hx; tauto].
    + apply expanded_step with (pending' := rest);
        [exact Hq | exact Hst | | | |].
      * intros x Hx. exact Hx.
      * intros x Hx. now left.
      * intros H. congruence.
      * apply IHf; assumption.
Qed.

End CoreFacts.

Section ScanFacts.

Import DBSCAN.

Variable n : nat.
Variable within : nat -> nat -> bool.
Variable minPts : Z.

Local Abbreviation N := (neighborhood n within).
Local Abbreviation core := (is_core n within minPts).

Lemma expand_seed (st : assignment) (k p : nat) :
  p < n ->
  expanded n within minPts k (N p) st (expand n within minPts n k (N p) st).
Proof.
  intros Hp. apply expand_fuel.
  - apply unassigned_le.
  - apply neighborhood_lt.
Qed.

(** After the scan every scanned point has been visited, and every cluster
    id in use is below the number of clusters. *)
Lemma scan_visited (ps : list nat) :
  forall (st : assignment) (k : nat),
    Forall (fun p => p < n) ps ->
    (forall i c, st i = Assigned c -> c < k) ->
    let r := scan n within minPts ps st k in
    (forall i c, fst r i = Assigned c -> c < snd r) /\
    (forall p, In p ps -> fst r p <> Unvisited) /\
    (forall i, st i <> Unvisited -> fst r i <> Unvisited).
Proof.
  induction ps as [| p ps IH]; intros st k Hps Hk; simpl.
  - split; [exact Hk | split; [intros p [] | auto]].
  - inversion Hps as [| ? ? Hp Hps']; subst.
    destruct (st p) eqn:Ep.
    + destruct (core p) eqn:Hc.
      * destruct (expand_seed st k Hp) as [K Nw P _ _].
        set (st1 := expand n within minPts n k (N p) st) in *.
        assert (Hk1 : forall i c, st1 i = Assigned c -> c < S k).
        { intros i c Hi. destruct (Nw i) as [E | [E _]].
          - rewrite E in Hi. apply Hk in Hi. lia.
          - rewrite E in Hi. injection Hi as <-. lia. }
        assert (Hv : forall i, st i <> Unvisited -> st1 i <> Unvisited).
        { intros i Hi. destruct (Nw i) as [E | [E _]]; rewrite E; [exact Hi | discriminate]. }
        assert (Hp1 : st1 p <> Unvisited).
        { assert (H := P p (self_in_neighborhood within Hp)).
          unfold assigned in H. intros E. rewrite E in H. discriminate. }
        destruct (IH st1 (S k) Hps' Hk1) as (I1 & I2 & I3).
        split; [exact I1 | split].
        -- intros q [<- | Hq]; [apply I3; exact Hp1 | apply I2; exact Hq].
        -- intros i Hi. apply I3, Hv, Hi.
      * set (st1 := upd st p NoiseCandidate).
        assert (Hk1 : forall i c, st1 i = Assigned c -> c < k).
        { intros i c. unfold st1, upd. destruct (i =? p); [discriminate | apply Hk]. }
        assert (Hv : forall i, st i <> Unvisited -> st1 i <> Unvisited).
        { intros i Hi. unfold st1, upd. destruct (i =? p); [discriminate | exact Hi]. }
        assert (Hp1 : st1 p <> Unvisited).
        { unfold st1, upd. rewrite Nat.eqb_refl. discriminate. }
        destruct (IH st1 k Hps' Hk1) as (I1 & I2 & I3).
        split; [exact I1 | split].
        -- intros q [<- | Hq]; [apply I3; exact Hp1 | apply I2; exact Hq].
        -- intros i Hi. apply I3, Hv, Hi.
    + destruct (IH st k Hps' Hk) as (I1 & I2 & I3).
      split; [exact I1 | split].
      * intros q [<- | Hq]; [apply I3; rewrite Ep; discriminate | apply I2; exact Hq].
      * exact I3.
    + destruct (IH st k Hps' Hk) as (I1 & I2 & I3).
      split; [exact I1 | split].
      * intros q [<- | Hq]; [apply I3; rewrite Ep; discriminate | apply I2; exact Hq].
      * exact I3.
Qed.

Lemma count_occ_clusters (st : assignment) (i : nat) :
  forall k,
    count_occ Nat.eq_dec (List.concat (clusters_of n st k)) i
    = if (i <? n) && match st i with Assigned c => c <? k | _ => false end
      then 1 else 0.
Proof.
  unfold clusters_of. induction k as [| k IH].
  - simpl. destruct (st i); rewrite ?andb_false_r; reflexivity.
  - rewrite seq_S, map_app, concat_app, count_occ_app, IH. simpl.
    rewrite app_nil_r. unfold members. rewrite count_occ_filter_seq.
    unfold in_cluster.
    destruct (i <? n); simpl; [| reflexivity].
    destruct (st i) as [| | c]; try reflexivity.
    destruct (Nat.eqb_spec c k) as [-> | Hck].
    + rewrite Nat.ltb_irrefl.
      assert (H : (k <? S k) = true) by (apply Nat.ltb_lt; lia).
      rewrite H. reflexivity.
    + destruct (Nat.ltb_spec c k) as [Hlt | Hge].
      * assert (H : (c <? S k) = true) by (apply Nat.ltb_lt; lia).
        rewrite H. reflexivity.
      * assert (H : (c <? S k) = false) by (apply Nat.ltb_ge; lia).
        rewrite H. reflexivity.
Qed.

(** The clusters and the noise of a final assignment partition the
    indices below [n]. *)
Lemma assign_partition :
  let '(st, k) := assign n within minPts in
  forall i,
    (i < n -> count_occ Nat.eq_dec
                (List.concat (clusters_of n st k) ++ noise_of n st) i = 1) /\
    (In i (List.concat (clusters_of n st k) ++ noise_of n st) -> i < n).
Proof.
  unfold assign.
  destruct (@scan_visited (seq 0 n) (fun _ => Unvisited) 0) as (I1 & I2 & _).
  { apply Forall_forall. intros p Hp. apply in_seq in Hp. lia. }
  { intros i c H. discriminate H. }
  destruct (scan n within minPts (seq 0 n) (fun _ => Unvisited) 0) as [st k].
  simpl in I1, I2. intros i.
  assert (Hcount : count_occ Nat.eq_dec
                     (List.concat (clusters_of n st k) ++ noise_of n st) i
                   = if (i <? n) then
                       match st i with Unvisited => 0 | _ => 1 end
                     else 0).
  { rewrite count_occ_app, count_occ_clusters. unfold noise_of.
    rewrite count_occ_filter_seq. unfold is_noise.
    destruct (i <? n); simpl; [| reflexivity].
    destruct (st i) as [| | c] eqn:Ei; try reflexivity.
    apply I1 in Ei. apply Nat.ltb_lt in Ei. rewrite Ei. reflexivity. }
  split.
  - intros Hi. rewrite Hcount.
    assert (H : (i <? n) = true) by (apply Nat.ltb_lt; exact Hi).
    rewrite H. assert (Hv : st i <> Unvisited) by (apply I2, in_seq; lia).
    destruct (st i); [congruence | reflexivity | reflexivity].
  - intros Hin. apply (count_occ_In Nat.eq_dec) in Hin. rewrite Hcount in Hin.
    destruct (Nat.ltb_spec i n); [assumption | lia].
Qed.

End ScanFacts.


Section SizeFacts.

Import DBSCAN.

Variable n : nat.
Variable within : nat -> nat -> bool.
Variable minPts : Z.

Hypothesis within_sym : forall p q, within p q = within q p.
Hypothesis minPts_le_3 : (minPts <= 3)%Z.

Local Abbreviation N := (neighborhood n within).
Local Abbreviation core := (is_core n within minPts).
Local Abbreviation scanned := (DBSCAN.scanned n within minPts).

Lemma neighborhood_sym (p q : nat) : p < n -> In q (N p) -> In p (N q).
Proof.
  intros Hp Hq. apply in_neighborhood in Hq. apply in_neighborhood.
  split; [exact Hp |]. destruct Hq as [_ [-> | Hq]]; [now left | right].
  rewrite within_sym. exact Hq.
Qed.

Lemma three_neighbors_core (x p y : nat) :
  In x (N x) -> In p (N x) -> In y (N x) ->
  x <> p -> x <> y -> p <> y -> core x = true.
Proof.
  intros Hx Hp Hy Hxp Hxy Hpy. unfold is_core. apply Z.leb_le.
  assert (H : List.length [x; p; y] <= List.length (N x)).
  { apply NoDup_incl_length.
    - repeat constructor; simpl; intuition congruence.
    - intros z [<- | [<- | [<- | []]]]; assumption. }
  simpl in H. lia.
Qed.

(** With a symmetric neighbour relation and [minPts <= 3], the whole
    neighborhood of an unvisited core point is still without a cluster. *)
Lemma seed_neighborhood_free (st : assignment) (k p : nat) :
  scanned st k -> p < n -> assigned st p = false ->
  forall x, In x (N p) -> assigned st x = false.
Proof.
  intros [_ Cl Fr _] Hp Hst x Hx.
  destruct (assigned st x) eqn:Ex; [exfalso | reflexivity].
  assert (Hxn : x < n) by (apply in_neighborhood in Hx; tauto).
  assert (Hxp : x <> p) by congruence.
  assert (Hpx : In p (N x)) by (apply neighborhood_sym; assumption).
  destruct (core x) eqn:Hc.
  - rewrite (Cl x Ex Hc p Hpx) in Hst. discriminate.
  - destruct (Fr x Ex) as (y & Hyn & Hy & Hyc & Hxy).
    assert (Hyx : In y (N x)) by (apply neighborhood_sym; assumption).
    assert (Hne1 : x <> y) by congruence.
    assert (Hne2 : p <> y) by congruence.
    rewrite (three_neighbors_core (self_in_neighborhood within Hxn) Hpx Hyx) in Hc;
      [discriminate | assumption ..].
Qed.

Lemma members_mono (st st' : assignment) (c : nat) :
  (forall i, assigned st i = true -> st' i = st i) ->
  List.length (members n st c) <= List.length (members n st' c).
Proof.
  intros K. apply filter_length_mono. intros i _ Hi.
  unfold in_cluster in *. destruct (st i) as [| | c'] eqn:Ei; try discriminate.
  rewrite (K i); [rewrite Ei; exact Hi |].
  unfold assigned. rewrite Ei. reflexivity.
Qed.

Lemma scanned_expand (st : assignment) (k p : nat) :
  scanned st k -> p < n -> assigned st p = false -> core p = true ->
  scanned (expand n within minPts n k (N p) st) (S k).
Proof.
  intros Hsc Hp Hst Hc.
  assert (Hfree := seed_neighborhood_free Hsc Hp Hst).
  destruct Hsc as [Ids Cl Fr Sz].
  destruct (expand_seed within minPts st k Hp) as [K Nw P Cl' Fr'].
  set (st1 := expand n within minPts n k (N p) st) in *.
  assert (Hkeep : forall i, assigned st i = true -> assigned st1 i = true).
  { intros i Hi. unfold assigned in *. rewrite (K i Hi). exact Hi. }
  assert (Hp1 : assigned st1 p = true)
    by (apply P, self_in_neighborhood; exact Hp).
  constructor.
  - intros i c Hi. destruct (Nw i) as [E | [E _]].
    + rewrite E in Hi. apply Ids in Hi. lia.
    + rewrite E in Hi. injection Hi as <-. lia.
  - intros x Hx Hcx y Hy. destruct (assigned st x) eqn:Ex.
    + apply Hkeep. apply (Cl x Ex Hcx y Hy).
    + apply (Cl' x Ex Hx Hcx y Hy).
  - intros x Hx. destruct (assigned st x) eqn:Ex.
    + destruct (Fr x Ex) as (y & Hyn & Hy & Hyc & Hxy).
      exists y. auto.
    + destruct (Fr' x Ex Hx) as [Hin | (y & Hyc & Hy & Hy1 & Hxy)].
      * exists p. auto.
      * exists y. repeat split; auto.
        destruct (Nw y) as [E | [_ Hyn]]; [| exact Hyn].
        unfold assigned in Hy, Hy1. rewrite E in Hy1. congruence.
  - intros c Hck. destruct (Nat.eq_dec c k) as [-> | Hne].
    + apply Z.leb_le in Hc. unfold is_core in Hc. apply Z.leb_le in Hc.
      assert (H : List.length (N p) <= List.length (members n st1 k)).
      { apply NoDup_incl_length; [apply neighborhood_NoDup |].
        intros x Hx. unfold members. apply filter_In.
        split; [apply in_neighborhood in Hx; apply in_seq; lia |].
        assert (H0 := Hfree x Hx). assert (H1 := P x Hx).
        unfold in_cluster. destruct (Nw x) as [E | [E _]].
        - unfold assigned in H0, H1. rewrite E in H1. congruence.
        - rewrite E. apply Nat.eqb_refl. }
      lia.
    + assert (Hc' : c < k) by lia.
      assert (H := @members_mono st st1 c K). specialize (Sz c Hc'). lia.
Qed.

Lemma scanned_noise (st : assignment) (k p : nat) :
  scanned st k -> st p = Unvisited -> scanned (upd st p NoiseCandidate) k.
Proof.
  intros [Ids Cl Fr Sz] Ep.
  assert (Ha : forall i, assigned (upd st p NoiseCandidate) i = assigned st i).
  { intros i. unfold assigned, upd. destruct (Nat.eqb_spec i p) as [-> | _];
      [rewrite Ep |]; reflexivity. }
  assert (Hm : forall c i, in_cluster (upd st p NoiseCandidate) c i = in_cluster st c i).
  { intros c i. unfold in_cluster, upd. destruct (Nat.eqb_spec i p) as [-> | _];
      [rewrite Ep |]; reflexivity. }
  constructor.
  - intros i c. unfold upd. destruct (i =? p); [discriminate | apply Ids].
  - intros x Hx Hc y Hy. rewrite Ha in *. eapply Cl; eauto.
  - intros x Hx. rewrite Ha in Hx. destruct (Fr x Hx) as (y & H1 & H2 & H3 & H4).
    exists y. rewrite Ha. auto.
  - intros c Hc. unfold members.
    rewrite (filter_ext _ _ (Hm c)). apply Sz, Hc.
Qed.

Lemma scan_scanned (ps : list nat) :
  forall (st : assignment) (k : nat),
    Forall (fun p => p < n) ps ->
    scanned st k ->
    scanned (fst (scan n within minPts ps st k))
            (snd (scan n within minPts ps st k)).
Proof.
  induction ps as [| p ps IH]; intros st k Hps Hsc; simpl; [exact Hsc |].
  inversion Hps as [| ? ? Hp Hps']; subst.
  destruct (st p) eqn:Ep; [| apply IH; assumption ..].
  destruct (core p) eqn:Hc.
  - apply IH; [assumption |]. apply scanned_expand; auto.
    unfold assigned. rewrite Ep. reflexivity.
  - apply IH; [assumption |]. apply scanned_noise; assumption.
Qed.

Lemma assign_sizes :
  let '(st, k) := assign n within minPts in
  Forall (fun cl => (minPts <= Z.of_nat (List.length cl))%Z) (clusters_of n st k).
Proof.
  unfold assign.
  assert (H := @scan_scanned (seq 0 n) (fun _ => Unvisited) 0).
  destruct (scan n within minPts (seq 0 n) (fun _ => Unvisited) 0) as [st k].
  simpl in H. destruct H as [_ _ _ Sz].
  - apply Forall_forall. intros p Hp. apply in_seq in Hp. lia.
  - constructor.
    + intros i c H. discriminate H.
    + intros x H. discriminate H.
    + intros x H. discriminate H.
    + intros c H. lia.
  - unfold clusters_of. apply Forall_map, Forall_forall.
    intros c Hc. apply in_seq in Hc. apply Sz. lia.
Qed.

End SizeFacts.

(** ** The pipeline *)

Section PipelineFacts.

Lemma leb_500_0 : Num.leb (Fin 500) (Fin 0) = false.
Proof. unfold Num.leb. destruct (Rle_dec 500 0); [lra | reflexivity]. Qed.

Lemma lookupStores_ok (fetchedStores : list store) (clusterIndexes : list nat) :
  Forall (fun i => i < List.length fetchedStores) clusterIndexes ->
  exists cs, lookupStores fetchedStores clusterIndexes = Ok cs /\
             List.length cs = List.length clusterIndexes.
Proof.
  unfold lookupStores.
  induction 1 as [| i l Hi _ (cs & E & Hl)]; simpl.
  - exists []. auto.
  - destruct (nth_error fetchedStores i) as [s |] eqn:Es.
    + simpl. rewrite E. simpl. exists (s :: cs). simpl. auto.
    + apply nth_error_None in Es. lia.
Qed.

Lemma clustersSummary_from_ok (fetchedStores : list store)
    (clusters : list (list nat)) :
  Forall (Forall (fun i => i < List.length fetchedStores)) clusters ->
  forall idx, exists summaries,
    clustersSummary_from idx fetchedStores clusters = Ok summaries /\
    Forall2 (fun cl s => Summary.storeCount s = List.length cl)
            clusters summaries.
Proof.
  induction 1 as [| cl cls Hcl _ IH]; intros idx; simpl.
  - exists []. auto.
  - destruct (@lookupStores_ok fetchedStores cl Hcl) as (cs & E & Hl).
    destruct (IH (S idx)) as (ss & E' & Hss).
    rewrite E, E'. simpl. exists (summary cs idx :: ss).
    split; [reflexivity |]. constructor; [exact Hl | exact Hss].
Qed.

(** The clusterer on valid parameters, through any function [W] that
    agrees with "within [eps]" on the points. *)
Lemma run_eq (points : list point) (eps : num) (minPts : Z)
    (distanceFn : point -> point -> num) (W : nat -> nat -> bool) :
  Num.leb eps (Fin 0) = false -> (1 <= minPts)%Z -> points <> [] ->
  (forall p q,
     Num.leb (distanceFn (nth p points (NaN, NaN)) (nth q points (NaN, NaN)))
             eps = W p q) ->
  DBSCAN.run points eps minPts distanceFn =
  let '(st, k) := DBSCAN.assign (List.length points) W minPts in
  Ok (DBSCAN.clusters_of (List.length points) st k,
      DBSCAN.noise_of (List.length points) st).
Proof.
  intros Heps Hmin Hne HW. unfold DBSCAN.run. rewrite Heps.
  assert (Hm : (minPts <? 1)%Z = false) by (apply Z.ltb_ge; exact Hmin).
  rewrite Hm. simpl orb. cbv iota.
  destruct points as [| p0 points']; [congruence |].
  cbv zeta.
  replace (fun p q : nat =>
             Num.leb (distanceFn (nth p (p0 :: points') (NaN, NaN))
                                 (nth q (p0 :: points') (NaN, NaN))) eps)
    with W; [reflexivity |].
  apply functional_extensionality. intros p.
  apply functional_extensionality. intros q.
  symmetry. apply HW.
Qed.

Lemma run_sizes (points : list point) (eps : num) (minPts : Z)
    (distanceFn : point -> point -> num) :
  Num.leb eps (Fin 0) = false -> (1 <= minPts <= 3)%Z -> points <> [] ->
  (forall a b, distanceFn a b = distanceFn b a) ->
  exists clusters noise,
    DBSCAN.run points eps minPts distanceFn = Ok (clusters, noise) /\
    Forall (Forall (fun i => i < List.length points)) clusters /\
    Forall (fun cl => (minPts <= Z.of_nat (List.length cl))%Z) clusters.
Proof.
  intros Heps Hmin Hne Hsym.
  set (W := fun p q : nat =>
              Num.leb (distanceFn (nth p points (NaN, NaN))
                                  (nth q points (NaN, NaN))) eps).
  rewrite (@run_eq points eps minPts distanceFn W) by (auto; lia).
  assert (HW : forall p q, W p q = W q p).
  { intros p q. unfold W. rewrite Hsym. reflexivity. }
  assert (Hs := @assign_sizes (List.length points) W minPts HW (proj2 Hmin)).
  assert (Hp := assign_partition (List.length points) W minPts).
  destruct (DBSCAN.assign (List.length points) W minPts) as [st k].
  eexists _, _. split; [reflexivity |]. split; [| exact Hs].
  apply Forall_forall. intros cl Hcl. apply Forall_forall. intros i Hi.
  apply Hp. apply in_or_app. left. apply in_concat. eauto.
Qed.

End PipelineFacts.

(** The pipeline with the parameters left open: when [minPts] is at most
    3, the run of a non-empty element list on valid parameters returns
    summaries, each with [minPts <= storeCount]. *)
Lemma analyzeWith_storeCount :
  forall (element : Type) (toStore : element -> store)
         (eps : num) (minPts : Z) (elements : list element),
    Num.leb eps (Fin 0) = false -> (1 <= minPts <= 3)%Z -> elements <> [] ->
    exists summaries noise,
      analyzeWith toStore eps minPts elements = Summarized summaries noise /\
      Forall (fun s => (minPts <= Z.of_nat (Summary.storeCount s))%Z) summaries.
Proof.
  intros element toStore eps minPts elements Heps Hmin Hne.
  unfold analyzeWith.
  destruct elements as [| e0 elements']; [congruence |].
  set (fetchedStores := map toStore (e0 :: elements')).
  set (points := map (fun s => (Store.lat s, Store.lng s)) fetchedStores).
  destruct (@run_sizes points eps minPts haversine Heps Hmin)
    as (clusters & noise & Hrun & Hlt & Hsz).
  { unfold points, fetchedStores. simpl. discriminate. }
  { apply haversine_sym. }
  rewrite Hrun.
  assert (Hlen : List.length points = List.length fetchedStores)
    by (unfold points; apply length_map).
  rewrite Hlen in Hlt.
  destruct (@clustersSummary_from_ok fetchedStores clusters Hlt 0) as (ss & Hss & Hcount).
  unfold clustersSummary. rewrite Hss.
  exists ss, noise. split; [reflexivity |].
  clear Hss Hrun Hlt. induction Hcount as [| cl s cls ss Hs _ IH].
  - constructor.
  - inversion Hsz; subst. constructor; [rewrite Hs; assumption | auto].
Qed.

(** C5.  Every cluster a run returns has a store count of at least
    [minPts]: [analyzeLocation], which passes [eps = 500] and
    [minPts = 3], returns on a non-empty element list summaries that all
    have [minPts <= storeCount], whatever the elements and the callback
    that makes stores of them. *)
Theorem storeCount_at_least_minPts :
  forall (element : Type) (toStore : element -> store)
         (elements : list element),
    elements <> [] ->
    exists summaries noise,
      analyzeLocation toStore elements = Summarized summaries noise /\
      Forall (fun s => (minPts <= Z.of_nat (Summary.storeCount s))%Z) summaries.
Proof.
  intros element toStore elements Hne. unfold analyzeLocation.
  apply analyzeWith_storeCount.
  - exact leb_500_0.
  - unfold minPts. lia.
  - exact Hne.
Qed.

Lemma storeCount_at_least_minPts_witness :
  [shopA; shopB; shopC] <> [] /\
  exists summaries noise,
    analyzeLocation (fun s : store => s) [shopA; shopB; shopC]
    = Summarized summaries noise /\
    Forall (fun s => (minPts <= Z.of_nat (Summary.storeCount s))%Z) summaries.
Proof.
  split; [discriminate |].
  apply (@storeCount_at_least_minPts store (fun s => s) [shopA; shopB; shopC]).
  discriminate.
Defined.

(** C6.  When the element list is empty the run stops at the guard of
    line 109 with the status "No stores found in that area.": a normal
    early return.  No error is raised, no clustering is performed, and
    neither clusters nor noise are returned. *)
Theorem empty_input_stops_the_run :
  forall (element : Type) (toStore : element -> store),
    analyzeLocation toStore [] = Stopped "No stores found in that area." /\
    (forall e, analyzeLocation toStore [] <> Thrown e) /\
    (forall summaries noise,
       analyzeLocation toStore [] <> Summarized summaries noise).
Proof.
  intros element toStore. split; [reflexivity |]. split.
  - intros e H. discriminate H.
  - intros summaries noise H. discriminate H.
Qed.

(** C6, as stated, fails: the run on an empty list raises no error of any
    kind; it returns with a status text. *)
Lemma empty_input_is_not_an_error :
  analyzeLocation (fun s : store => s) [] = Stopped "No stores found in that area."
  /\ ~ exists e : error, analyzeLocation (fun s : store => s) [] = Thrown e.
Proof.
  split; [reflexivity |]. intros [e H]. discriminate H.
Qed.

(** ** Runs on concrete stores *)

Section MeridianFacts.

Local Open Scope R_scope.

Lemma Ratan2_abs_sin_cos (x : R) :
  - (PI / 2) < x < PI / 2 -> Math.Ratan2 (Rabs (sin x)) (cos x) = Rabs x.
Proof.
  intros Hx. assert (Hcos : 0 < cos x) by (apply cos_gt_0; lra).
  unfold Math.Ratan2.
  destruct (total_order_T (cos x) 0) as [[H | H] | _]; try lra.
  destruct (Rle_dec 0 x) as [Hpos | Hneg].
  - assert (Hs : 0 <= sin x) by (apply sin_ge_0; lra).
    rewrite (Rabs_pos_eq (sin x)), (Rabs_pos_eq x) by assumption.
    fold (tan x). apply atan_tan. lra.
  - assert (Hs : 0 <= sin (- x)) by (apply sin_ge_0; lra).
    rewrite Rtrigo1.sin_neg in Hs.
    rewrite (Rabs_left1 (sin x)), (Rabs_left1 x) by lra.
    replace (- sin x / cos x) with (- tan x) by (unfold tan; field; lra).
    rewrite atan_opp, atan_tan by lra. reflexivity.
Qed.

(** Along a meridian the distance is the arc between the latitudes. *)
Lemma haversine_meridian (a b lng : R) :
  -180 < b - a < 180 ->
  haversine (Fin a, Fin lng) (Fin b, Fin lng)
  = Fin (6371000 * 2 * (Rabs (b - a) * (PI / 360))).
Proof.
  intros Hab. rewrite haversine_fin. f_equal. unfold haversineR. f_equal.
  assert (Hpi := PI_RGT_0).
  set (x := (b - a) * PI / 180 / 2).
  assert (Hx : - (PI / 2) < x < PI / 2) by (unfold x; split; nra).
  assert (Hh : hav a lng b lng = Rsqr (sin x)).
  { unfold hav. fold x.
    replace ((lng - lng) * PI / 180 / 2) with 0 by field.
    rewrite sin_0. unfold Rsqr. ring. }
  rewrite Hh, sqrt_Rsqr_abs.
  replace (1 - Rsqr (sin x)) with (Rsqr (cos x))
    by (assert (H := sin2_cos2 x); lra).
  rewrite sqrt_Rsqr by (left; apply cos_gt_0; lra).
  rewrite Ratan2_abs_sin_cos by exact Hx.
  unfold x. replace ((b - a) * PI / 180 / 2) with ((b - a) * (PI / 360)) by field.
  rewrite Rabs_mult, (Rabs_pos_eq (PI / 360)) by lra. reflexivity.
Qed.

Lemma meridian_close (a b lng : R) :
  Rabs (b - a) <= 0.0035 ->
  Num.leb (haversine (Fin a, Fin lng) (Fin b, Fin lng)) (Fin 500) = true.
Proof.
  intros H. assert (H0 := Rabs_pos (b - a)).
  rewrite haversine_meridian.
  - assert (Hpi := PI_RGT_0). assert (Hpi4 := PI_4).
    unfold Num.leb. destruct (Rle_dec _ _) as [_ | Hn]; [reflexivity |].
    exfalso. apply Hn. set (r := Rabs (b - a)) in *. nra.
  - unfold Rabs in H. destruct (Rcase_abs (b - a)); lra.
Qed.

Lemma meridian_far (a b lng : R) :
  0.0055 <= Rabs (b - a) <= 1 ->
  Num.leb (haversine (Fin a, Fin lng) (Fin b, Fin lng)) (Fin 500) = false.
Proof.
  intros H.
  rewrite haversine_meridian.
  - assert (Hpi := PI2_3_2).
    unfold Num.leb. destruct (Rle_dec _ _) as [Hle | _]; [| reflexivity].
    exfalso. set (r := Rabs (b - a)) in *. nra.
  - unfold Rabs in H. destruct (Rcase_abs (b - a)); lra.
Qed.

Lemma haversine_NaN_l (q : point) : haversine (NaN, NaN) q = NaN.
Proof. destruct q as [[] []]; reflexivity. Qed.

Lemma haversine_NaN_r (p : point) : haversine p (NaN, NaN) = NaN.
Proof. rewrite haversine_sym. apply haversine_NaN_l. Qed.

End MeridianFacts.

Ltac solve_Rabs :=
  unfold Rabs; match goal with |- context [Rcase_abs ?x] =>
    destruct (Rcase_abs x) end; lra.

Ltac decide_within W :=
  match goal with
  | |- _ = W ?p ?q =>
      let b := eval vm_compute in (W p q) in
      change (W p q) with b;
      cbn [nth map Store.lat Store.lng];
      first [ apply meridian_close; solve_Rabs
            | apply meridian_far; solve_Rabs
            | rewrite haversine_NaN_r; reflexivity
            | rewrite haversine_NaN_l; reflexivity ]
  end.

Ltac beyond_the_points i lem :=
  cbn [nth map]; destruct i; rewrite lem; reflexivity.

Lemma within7_spec (p q : nat) :
  Num.leb (haversine (nth p points7 (NaN, NaN)) (nth q points7 (NaN, NaN)))
          (Fin 500) = within7 p q.
Proof.
  unfold points7, stores7, onMeridian.
  do 7 (destruct p as [| p];
        [ do 7 (destruct q as [| q]; [ decide_within within7 | ]);
          beyond_the_points q haversine_NaN_r | ]).
  beyond_the_points p haversine_NaN_l.
Qed.

Lemma within3_spec (p q : nat) :
  Num.leb (haversine
             (nth p (map (fun s => (Store.lat s, Store.lng s))
                         [shopA; shopB; shopC]) (NaN, NaN))
             (nth q (map (fun s => (Store.lat s, Store.lng s))
                         [shopA; shopB; shopC]) (NaN, NaN)))
          (Fin 500) = within3 p q.
Proof.
  unfold shopA, shopB, shopC.
  do 3 (destruct p as [| p];
        [ do 3 (destruct q as [| q]; [ decide_within within3 | ]);
          beyond_the_points q haversine_NaN_r | ]).
  beyond_the_points p haversine_NaN_l.
Qed.

(** The clusterer on the seven stores with [minPts = 4]: the second
    cluster has three members, the store at position 1 being held by the
    first. *)
Lemma run_stores7 :
  DBSCAN.run points7 (Fin 500) 4 haversine
  = Ok ([[0; 1; 2; 3]; [4; 5; 6]], []).
Proof.
  rewrite (@run_eq points7 (Fin 500) 4 haversine within7).
  - vm_compute. reflexivity.
  - exact leb_500_0.
  - lia.
  - discriminate.
  - exact within7_spec.
Qed.

(** With [minPts = 3] the seven stores form one cluster, and with
    [minPts = 5] none of them is a core point and all are noise. *)
Example run_stores7_minPts_3 :
  DBSCAN.run points7 (Fin 500) 3 haversine
  = Ok ([[0; 1; 2; 3; 4; 5; 6]], []).
Proof.
  rewrite (@run_eq points7 (Fin 500) 3 haversine within7).
  - vm_compute. reflexivity.
  - exact leb_500_0.
  - lia.
  - discriminate.
  - exact within7_spec.
Qed.

Example run_stores7_minPts_5 :
  DBSCAN.run points7 (Fin 500) 5 haversine
  = Ok ([], [0; 1; 2; 3; 4; 5; 6]).
Proof.
  rewrite (@run_eq points7 (Fin 500) 5 haversine within7).
  - vm_compute. reflexivity.
  - exact leb_500_0.
  - lia.
  - discriminate.
  - exact within7_spec.
Qed.

(** The bound [minPts <= 3] of [analyzeWith_storeCount] cannot be dropped
    for the clusterer of section 4.2: with [minPts = 4], which
    [analyzeLocation] never passes, the run over the seven stores returns
    two clusters, of 4 and of 3 stores. *)
Example cluster_smaller_than_minPts :
  exists summaries noise,
    analyzeWith (fun s : store => s) (Fin 500) 4 stores7
    = Summarized summaries noise /\
    map Summary.storeCount summaries = [4; 3] /\
    ~ Forall (fun s => (4 <= Z.of_nat (Summary.storeCount s))%Z) summaries.
Proof.
  unfold analyzeWith.
  change (map (fun s : store => (Store.lat s, Store.lng s))
              (map (fun s : store => s) stores7)) with points7.
  cbv iota beta. unfold stores7 at 1.
  rewrite run_stores7.
  eexists _, _. split; [reflexivity |]. split; [reflexivity |].
  intros H. inversion H as [| ? ? _ H']. inversion H' as [| ? ? H3 _].
  simpl in H3. lia.
Qed.

(** The source's run ([eps = 500], [minPts = 3]) on three stores at one
    place: one cluster of the three, no noise. *)
Example analyzeLocation_three_stores :
  analyzeLocation (fun s : store => s) [shopA; shopB; shopC]
  = Summarized [summary [shopA; shopB; shopC] 0] [].
Proof.
  unfold analyzeLocation, analyzeWith, eps, minPts.
  rewrite (@run_eq _ (Fin 500) 3 haversine within3).
  - reflexivity.
  - exact leb_500_0.
  - lia.
  - discriminate.
  - exact within3_spec.
Qed.

(** * Further properties of the code *)

(** ** More on the distance *)

Section HaversineMore.

Local Open Scope R_scope.

Lemma Ratan2_quadrant (y x : R) :
  0 <= y -> 0 <= x -> 0 <= Math.Ratan2 y x <= PI / 2.
Proof.
  intros Hy Hx. assert (Hpi := PI_RGT_0). unfold Math.Ratan2.
  destruct (total_order_T x 0) as [[H | H] | H]; [lra | |].
  - destruct (total_order_T y 0) as [[H' | H'] | H']; lra.
  - assert (Hq : 0 <= y / x).
    { apply Rmult_le_pos; [exact Hy |]. left. apply Rinv_0_lt_compat. exact H. }
    assert (Hb := atan_bound (y / x)).
    split; [| lra].
    destruct Hq as [Hq | <-]; [| rewrite atan_0; lra].
    assert (Hi := atan_increasing 0 (y / x) Hq). rewrite atan_0 in Hi. lra.
Qed.

Lemma haversineR_range (lat1 lng1 lat2 lng2 : R) :
  0 <= haversineR lat1 lng1 lat2 lng2 <= 6371000 * PI.
Proof.
  unfold haversineR.
  assert (H := Ratan2_quadrant
                 (sqrt_pos (hav lat1 lng1 lat2 lng2))
                 (sqrt_pos (1 - hav lat1 lng1 lat2 lng2))).
  lra.
Qed.

End HaversineMore.

(** X1.  Whenever the distance between two points with finite coordinates
    is a number, it is at least 0 and at most half the circumference of
    the sphere, [6371000 * PI] meters: the code never returns a negative
    distance or one beyond the antipode. *)
Theorem haversine_range :
  forall lat1 lng1 lat2 lng2 d : R,
    haversine (Fin lat1, Fin lng1) (Fin lat2, Fin lng2) = Fin d ->
    (0 <= d <= 6371000 * PI)%R.
Proof.
  intros lat1 lng1 lat2 lng2 d H. rewrite haversine_fin in H.
  injection H as <-. apply haversineR_range.
Qed.

Lemma haversine_range_witness :
  haversine (Fin 0, Fin 0) (Fin 0, Fin 0) = Fin 0 /\
  (0 <= 0 <= 6371000 * PI)%R.
Proof.
  assert (H : haversine (Fin 0, Fin 0) (Fin 0, Fin 0) = Fin 0).
  { rewrite haversine_fin, haversineR_same. reflexivity. }
  split; [exact H | apply (@haversine_range 0 0 0 0 0 H)].
Defined.

(** X2.  Between two points of one meridian whose latitudes differ by less
    than 180 degrees, the distance is the length of the arc between them:
    the radius times the difference of latitude in radians. *)
Theorem haversine_on_a_meridian :
  forall lat1 lat2 lng : R,
    (-180 < lat2 - lat1 < 180)%R ->
    haversine (Fin lat1, Fin lng) (Fin lat2, Fin lng)
    = Fin (6371000 * (Rabs (lat2 - lat1) * PI / 180)).
Proof.
  intros lat1 lat2 lng H. rewrite haversine_meridian by exact H.
  f_equal. field.
Qed.

Lemma haversine_on_a_meridian_witness :
  (-180 < 1 - 0 < 180)%R /\
  haversine (Fin 0, Fin 0) (Fin 1, Fin 0)
  = Fin (6371000 * (Rabs (1 - 0) * PI / 180)).
Proof.
  assert (H : (-180 < 1 - 0 < 180)%R) by lra.
  split; [exact H | apply (@haversine_on_a_meridian 0 1 0 H)].
Defined.

(** ** More on the cluster summary *)

Section SummaryMore.

Local Open Scope R_scope.

Lemma fold_add_between (f : store -> num) (lo hi : R) (l : list store) :
  Forall (between f lo hi) l ->
  forall acc, exists y,
    fold_left (fun s it => Num.add s (f it)) l (Fin acc) = Fin y /\
    acc + INR (List.length l) * lo <= y <= acc + INR (List.length l) * hi.
Proof.
  induction 1 as [| s l (x & Hx & Hb) _ IH]; intros acc.
  - exists acc. simpl. split; [reflexivity | lra].
  - cbn [fold_left]. rewrite Hx. cbn [Num.add].
    destruct (IH (acc + x)) as (y & Hy & Hyb).
    exists y. split; [exact Hy |].
    change (List.length (s :: l)) with (S (List.length l)).
    rewrite S_INR. lra.
Qed.

Lemma mean_between (f : store -> num) (lo hi : R) (l : list store) :
  l <> [] -> Forall (between f lo hi) l ->
  exists m,
    Num.div (fold_left (fun s it => Num.add s (f it)) l (Fin 0))
            (Num.of_nat (List.length l)) = Fin m /\
    lo <= m <= hi.
Proof.
  intros Hne Hl. destruct (fold_add_between Hl 0) as (y & Hy & Hyb).
  assert (Hn := INR_length_pos Hne).
  rewrite Hy. unfold Num.of_nat. rewrite div_fin by lra.
  exists (y / INR (List.length l)). split; [reflexivity |].
  split.
  - apply Rmult_le_reg_r with (r := INR (List.length l)); [exact Hn |].
    unfold Rdiv. rewrite Rmult_assoc, Rinv_l by lra. lra.
  - apply Rmult_le_reg_r with (r := INR (List.length l)); [exact Hn |].
    unfold Rdiv. rewrite Rmult_assoc, Rinv_l by lra. lra.
Qed.

Lemma round_fin (x : R) : Math.round (Fin x) = Fin (IZR (Zfloor (x + / 2))).
Proof. reflexivity. Qed.

Lemma score_of_density (l : list store) (d : R) :
  densityPerKm2 l = Fin d ->
  densityScore l = Fin (IZR (Zfloor (Rmin 100 (d * 10) + / 2))).
Proof. intros H. unfold densityScore. rewrite H. reflexivity. Qed.

End SummaryMore.

Lemma coincident_facts (l : list store) (x y : R) :
  l <> [] ->
  Forall (fun s => Store.lat s = Fin x /\ Store.lng s = Fin y) l ->
  radiusMeters l = Fin 100 /\
  densityPerKm2 l = Fin (INR (List.length l) / (PI * 0.01)) /\
  densityScore l = Fin 100.
Proof.
  intros Hne Hall.
  assert (Hfin : Forall finite_store l).
  { eapply Forall_impl; [| exact Hall]. intros s [E1 E2].
    unfold finite_store. rewrite E1, E2. simpl. auto. }
  assert (Hc : centroid l = (Fin x, Fin y)).
  { destruct (@mean_between Store.lat x x l Hne) as (cx & E1 & B1).
    { eapply Forall_impl; [| exact Hall]. intros s [E _].
      exists x. split; [exact E | lra]. }
    destruct (@mean_between Store.lng y y l Hne) as (cy & E2 & B2).
    { eapply Forall_impl; [| exact Hall]. intros s [_ E].
      exists y. split; [exact E | lra]. }
    unfold centroid, latSum, lngSum. rewrite E1, E2.
    f_equal; f_equal; lra. }
  destruct (radius_spec Hfin) as (r & Hr & Hr100 & _ & Hatt).
  assert (Er : r = 100%R).
  { destruct Hatt as [E | (s & Hs & Hd)]; [exact E |].
    rewrite Forall_forall in Hall. destruct (Hall s Hs) as [E1 E2].
    rewrite Hc, E1, E2, haversine_fin, haversineR_same in Hd.
    injection Hd as Hd. lra. }
  subst r.
  assert (Hd : densityPerKm2 l = Fin (INR (List.length l) / (PI * 0.01))).
  { assert (Hh := PI_hundredth).
    unfold densityPerKm2, areaKm2, Math.PI. rewrite Hr.
    rewrite div_fin by lra. cbn [Num.pow2 Num.mul Math.max].
    replace (PI * (100 / 1000 * (100 / 1000)))%R with (PI * 0.01)%R by lra.
    rewrite Rmax_left by lra.
    unfold Num.of_nat. apply div_fin. lra. }
  split; [exact Hr | split; [exact Hd |]].
  rewrite (score_of_density l Hd). do 2 f_equal.
  assert (Hn : (1 <= INR (List.length l))%R).
  { destruct l; [congruence |]. simpl List.length. rewrite S_INR.
    assert (H0 := pos_INR (List.length l)). lra. }
  assert (Hpi := PI_4). assert (Hpi0 := PI_RGT_0).
  assert (Hq : (100 <= INR (List.length l) / (PI * 0.01) * 10)%R).
  { unfold Rdiv. rewrite Rmult_assoc.
    apply Rmult_le_reg_r with (r := (PI * 0.01)%R); [lra |].
    rewrite Rmult_assoc, (Rmult_assoc (/ (PI * 0.01))), (Rmult_comm 10),
      <- (Rmult_assoc (/ (PI * 0.01))), Rinv_l by lra.
    nra. }
  rewrite Rmin_left by exact Hq.
  apply Zfloor_eq. simpl. lra.
Qed.


(** X6.  A non-empty cluster whose members all have the same finite
    coordinates has the floor radius of 100 meters, the density
    [storeCount / (PI * 0.01)] and the density score 100. *)
Theorem coincident_members_summary :
  forall (clusterStores : list store) (idx : nat) (x y : R),
    clusterStores <> [] ->
    Forall (fun s => Store.lat s = Fin x /\ Store.lng s = Fin y) clusterStores ->
    let s := summary clusterStores idx in
    Summary.radiusMeters s = Fin 100 /\
    Summary.densityPerKm2 s
    = Fin (INR (Summary.storeCount s) / (PI * 0.01)) /\
    Summary.densityScore s = Fin 100.
Proof.
  intros l idx x y Hne Hall. exact (coincident_facts Hne Hall).
Qed.

Lemma coincident_members_summary_witness :
  [shopA; shopB; shopC] <> [] /\
  Forall (fun s => Store.lat s = Fin 0 /\ Store.lng s = Fin 0)
         [shopA; shopB; shopC] /\
  let s := summary [shopA; shopB; shopC] 0 in
  Summary.radiusMeters s = Fin 100 /\
  Summary.densityPerKm2 s
  = Fin (INR (Summary.storeCount s) / (PI * 0.01)) /\
  Summary.densityScore s = Fin 100.
Proof.
  assert (Hne : [shopA; shopB; shopC] <> []) by discriminate.
  assert (Hall : Forall (fun s => Store.lat s = Fin 0 /\ Store.lng s = Fin 0)
                        [shopA; shopB; shopC]) by (repeat constructor).
  split; [exact Hne | split; [exact Hall |]].
  apply (@coincident_members_summary [shopA; shopB; shopC] 0 0 0 Hne Hall).
Defined.

(** X7.  The density score does not decrease with the density: of two
    clusters with finite densities [d1 <= d2], the second has a score at
    least as high as the first. *)
Theorem densityScore_monotone :
  forall (l1 l2 : list store) (d1 d2 : R),
    densityPerKm2 l1 = Fin d1 -> densityPerKm2 l2 = Fin d2 ->
    (d1 <= d2)%R ->
    exists z1 z2 : Z,
      densityScore l1 = Fin (IZR z1) /\ densityScore l2 = Fin (IZR z2) /\
      (z1 <= z2)%Z.
Proof.
  intros l1 l2 d1 d2 H1 H2 Hle.
  rewrite (score_of_density l1 H1), (score_of_density l2 H2).
  eexists _, _. split; [reflexivity | split; [reflexivity |]].
  apply Zfloor_le.
  apply Rplus_le_compat_r. apply Rle_min_compat_l. lra.
Qed.

Lemma sample_density_three :
  densityPerKm2 [shopA; shopB; shopC] = Fin (INR 3 / (PI * 0.01)).
Proof.
  assert (Hall : Forall (fun s => Store.lat s = Fin 0 /\ Store.lng s = Fin 0)
                        [shopA; shopB; shopC]) by (repeat constructor).
  destruct (@coincident_facts [shopA; shopB; shopC] 0 0) as (_ & H & _);
    [discriminate | exact Hall | exact H].
Qed.

Lemma sample_density_none : densityPerKm2 [] = Fin 0.
Proof.
  change (Summary.densityPerKm2 (summary [] 0) = Fin 0).
  rewrite summary_nil. reflexivity.
Qed.

Lemma sample_density_pos : (0 <= INR 3 / (PI * 0.01))%R.
Proof.
  assert (Hpi := PI_RGT_0). apply Rmult_le_pos; [apply pos_INR |].
  left. apply Rinv_0_lt_compat. lra.
Qed.

Lemma densityScore_monotone_witness :
  densityPerKm2 [] = Fin 0 /\
  densityPerKm2 [shopA; shopB; shopC] = Fin (INR 3 / (PI * 0.01)) /\
  (0 <= INR 3 / (PI * 0.01))%R /\
  exists z1 z2 : Z,
    densityScore [] = Fin (IZR z1) /\
    densityScore [shopA; shopB; shopC] = Fin (IZR z2) /\ (z1 <= z2)%Z.
Proof.
  split; [exact sample_density_none |
          split; [exact sample_density_three |
                  split; [exact sample_density_pos |]]].
  apply (@densityScore_monotone [] [shopA; shopB; shopC] 0 (INR 3 / (PI * 0.01))
           sample_density_none sample_density_three sample_density_pos).
Defined.

(** X8.  The density score is 100 exactly when the density is at least
    9.95 stores per square kilometre, and 0 exactly when it is below
    0.05 (the density being a finite number, at least 0). *)
Theorem densityScore_saturation :
  forall (l : list store) (d : R),
    densityPerKm2 l = Fin d -> (0 <= d)%R ->
    (densityScore l = Fin 100 <-> (9.95 <= d)%R) /\
    (densityScore l = Fin 0 <-> (d < 0.05)%R).
Proof.
  intros l d H Hd. rewrite (score_of_density l H).
  assert (Hb := Zfloor_bound (Rmin 100 (d * 10) + / 2)).
  assert (Hm : (Rmin 100 (d * 10) <= 100)%R) by apply Rmin_l.
  assert (Hm' : (Rmin 100 (d * 10) <= d * 10)%R) by apply Rmin_r.
  assert (Hcase : (Rmin 100 (d * 10) = 100 \/ Rmin 100 (d * 10) = d * 10)%R).
  { unfold Rmin. destruct (Rle_dec 100 (d * 10)); auto. }
  split; split.
  - intros E. injection E as E. rewrite E in Hb. destruct Hcase; lra.
  - intros Hge. do 2 f_equal. apply Zfloor_eq. simpl.
    destruct Hcase as [E | E]; rewrite E; lra.
  - intros E. injection E as E. rewrite E in Hb. destruct Hcase; lra.
  - intros Hlt. do 2 f_equal. apply Zfloor_eq. simpl.
    destruct Hcase as [E | E]; rewrite E; lra.
Qed.

Lemma densityScore_saturation_witness :
  densityPerKm2 [shopA; shopB; shopC] = Fin (INR 3 / (PI * 0.01)) /\
  (0 <= INR 3 / (PI * 0.01))%R /\
  (densityScore [shopA; shopB; shopC] = Fin 100
   <-> (9.95 <= INR 3 / (PI * 0.01))%R) /\
  (densityScore [shopA; shopB; shopC] = Fin 0
   <-> (INR 3 / (PI * 0.01) < 0.05)%R).
Proof.
  split; [exact sample_density_three | split; [exact sample_density_pos |]].
  apply (@densityScore_saturation [shopA; shopB; shopC] (INR 3 / (PI * 0.01))
           sample_density_three sample_density_pos).
Defined.

(** ** More on the breakdowns *)

Section BreakdownMore.

Lemma get_own_set_own_eq (o : obj) (k : string) (v : jsval) :
  Obj.get_own (Obj.set_own o k v) k = Some v.
Proof.
  induction o as [| [k' v'] o IH]; simpl.
  - rewrite String.eqb_refl. reflexivity.
  - destruct (String.eqb k k') eqn:E; simpl; rewrite E; [reflexivity | exact IH].
Qed.

Lemma get_own_set_own_ne (o : obj) (k k' : string) (v : jsval) :
  k' <> k -> Obj.get_own (Obj.set_own o k v) k' = Obj.get_own o k'.
Proof.
  intros Hne. induction o as [| [k0 v0] o IH]; simpl.
  - apply String.eqb_neq in Hne. rewrite Hne. reflexivity.
  - destruct (String.eqb k k0) eqn:E; simpl.
    + apply String.eqb_eq in E. subst k0.
      apply String.eqb_neq in Hne. rewrite Hne. reflexivity.
    + rewrite IH. reflexivity.
Qed.

(** [o[k] = (o[k] || 0) + 1] on a counter that holds [m], for a key that
    [Object.prototype] does not have. *)
Lemma bump_counted (o : obj) (m : string -> nat) (k : string) :
  Obj.inherited k = None ->
  (forall k', Obj.get_own o k' = counted (m k')) ->
  forall k', Obj.get_own (Obj.bump o k) k'
             = counted (m k' + if String.eqb k' k then 1 else 0).
Proof.
  intros Hk Hm k'. unfold Obj.bump, Obj.set.
  rewrite (inherited_None_proto _ Hk).
  destruct (String.eqb k' k) eqn:E.
  - apply String.eqb_eq in E. subst k'. rewrite get_own_set_own_eq.
    unfold Obj.or0_plus1. rewrite Hk, (Hm k).
    destruct (m k) as [| n]; simpl; f_equal; f_equal; lia.
  - apply String.eqb_neq in E. rewrite get_own_set_own_ne by exact E.
    rewrite Nat.add_0_r. apply Hm.
Qed.

Lemma fold_bump_counted (f : store -> string) (l : list store) :
  Forall (fun s => Obj.inherited (f s) = None) l ->
  forall (o : obj) (m : string -> nat),
    (forall k, Obj.get_own o k = counted (m k)) ->
    forall k, Obj.get_own (fold_left (fun o s => Obj.bump o (f s)) l o) k
              = counted (m k + withLabel f k l).
Proof.
  induction 1 as [| s l Hs _ IH]; intros o m Hm k; simpl.
  - unfold withLabel. simpl. rewrite Nat.add_0_r. apply Hm.
  - rewrite (IH _ (fun k' => m k' + if String.eqb k' (f s) then 1 else 0)).
    + unfold withLabel. simpl. rewrite (String.eqb_sym (f s) k).
      destruct (String.eqb k (f s)); simpl; f_equal; lia.
    + apply bump_counted; assumption.
Qed.

Lemma breakdown_components (l : list store) :
  forall types sizes,
    fold_left
      (fun '(types, sizes) s =>
         (Obj.bump types (Store.type s),
          Obj.bump sizes (size_name (Store.size s))))
      l (types, sizes)
    = (fold_left (fun o s => Obj.bump o (Store.type s)) l types,
       fold_left (fun o s => Obj.bump o (size_name (Store.size s))) l sizes).
Proof.
  induction l as [| s l IH]; intros types sizes; simpl; [reflexivity | apply IH].
Qed.

Lemma poisoned_total (o : obj) : poisoned o -> Obj.total o = None.
Proof.
  intros (k & s & Hk & _). destruct (Obj.total o) as [t |] eqn:Et; [| reflexivity].
  exfalso. exact (get_own_total_num k o Et Hk).
Qed.

Lemma append_not_empty (s : string) : (s ++ "1")%string <> EmptyString.
Proof. destruct s; discriminate. Qed.

Lemma bump_poisoned (o : obj) (k : string) : poisoned o -> poisoned (Obj.bump o k).
Proof.
  intros (k0 & s & Hk0 & Hs). unfold Obj.bump, Obj.set.
  destruct (String.eqb k "__proto__"); [exists k0, s; auto |].
  destruct (String.eqb k0 k) eqn:E.
  - apply String.eqb_eq in E. subst k0.
    exists k, (s ++ "1")%string. split; [| apply append_not_empty].
    unfold Obj.or0_plus1. rewrite Hk0.
    apply String.eqb_neq in Hs. rewrite Hs. apply get_own_set_own_eq.
  - apply String.eqb_neq in E. exists k0, s.
    split; [| exact Hs]. rewrite get_own_set_own_ne by exact E. exact Hk0.
Qed.

Lemma bump_clean (o : obj) (t : nat) (k : string) :
  clean o t ->
  match Obj.inherited k with
  | None => clean (Obj.bump o k) (t + 1)
  | Some _ => poisoned (Obj.bump o k) \/ clean (Obj.bump o k) t
  end.
Proof.
  intros [Ht Hown]. destruct (Obj.inherited k) as [text |] eqn:Hk.
  - unfold Obj.bump, Obj.set.
    destruct (String.eqb k "__proto__"); [right; split; assumption | left].
    exists k, (text ++ "1")%string. split; [| apply append_not_empty].
    unfold Obj.or0_plus1. rewrite Hown, Hk by congruence.
    apply get_own_set_own_eq.
  - split; [apply bump_total; assumption |].
    intros k' Hk'. unfold Obj.bump, Obj.set.
    rewrite (inherited_None_proto _ Hk).
    rewrite get_own_set_own_ne by congruence. apply Hown, Hk'.
Qed.

Lemma fold_bump_poisoned (f : store -> string) (l : list store) :
  forall o, poisoned o ->
            poisoned (fold_left (fun o s => Obj.bump o (f s)) l o).
Proof.
  induction l as [| s l IH]; intros o Ho; simpl; [exact Ho |].
  apply IH, bump_poisoned, Ho.
Qed.

Lemma fold_bump_at_most (f : store -> string) (l : list store) :
  forall o t, clean o t ->
  forall u, Obj.total (fold_left (fun o s => Obj.bump o (f s)) l o) = Some u ->
            u <= t + List.length l.
Proof.
  induction l as [| s l IH]; intros o t Ho u Hu; simpl in *.
  - destruct Ho as [Ht _]. rewrite Ht in Hu. injection Hu as <-. lia.
  - assert (Hb := bump_clean (f s) Ho).
    destruct (Obj.inherited (f s)).
    + destruct Hb as [Hb | Hb].
      * rewrite (poisoned_total (fold_bump_poisoned f l Hb)) in Hu. discriminate.
      * apply (IH _ _ Hb) in Hu. lia.
    + apply (IH _ _ Hb) in Hu. lia.
Qed.

Lemma fold_bump_clean (f : store -> string) (l : list store) :
  forall (o : obj) (t : nat),
    clean o t ->
    Exists (fun s => Obj.inherited (f s) <> None) l ->
    Obj.total (fold_left (fun o s => Obj.bump o (f s)) l o)
    <> Some (t + List.length l).
Proof.
  induction l as [| s l IH]; intros o t Ho Hex; simpl.
  - inversion Hex.
  - assert (Hb := bump_clean (f s) Ho).
    destruct (Obj.inherited (f s)) as [text |] eqn:Hk.
    + destruct Hb as [Hb | Hb].
      * rewrite (poisoned_total (fold_bump_poisoned f l Hb)). discriminate.
      * intros Hu. apply (fold_bump_at_most f l Hb) in Hu. lia.
    + inversion Hex as [? ? H | ? ? H]; subst; [congruence |].
      replace (t + S (List.length l)) with (t + 1 + List.length l) by lia.
      apply IH; assumption.
Qed.

End BreakdownMore.

(** X9.  The size breakdown holds, for each size name, the number of
    members of that size, and nothing for a size no member has or for any
    other key. *)
Theorem sizes_count_members :
  forall (clusterStores : list store) (idx : nat) (k : string),
    Obj.get_own (Summary.sizes (summary clusterStores idx)) k
    = counted (withLabel (fun s => size_name (Store.size s)) k clusterStores).
Proof.
  intros l idx k. cbn [Summary.sizes summary]. unfold breakdown.
  rewrite breakdown_components. cbn [snd].
  apply (@fold_bump_counted (fun s => size_name (Store.size s)) l)
    with (m := fun _ => 0).
  - apply Forall_forall. intros s _. apply size_name_own.
  - reflexivity.
Qed.

(** X10.  When no member's category is the name of a property of
    [Object.prototype], the category breakdown holds for each category the
    number of members of that category, and nothing for any other key. *)
Theorem types_count_members :
  forall (clusterStores : list store) (idx : nat) (k : string),
    Forall (fun s => Obj.inherited (Store.type s) = None) clusterStores ->
    Obj.get_own (Summary.types (summary clusterStores idx)) k
    = counted (withLabel Store.type k clusterStores).
Proof.
  intros l idx k Hl. cbn [Summary.types summary]. unfold breakdown.
  rewrite breakdown_components. cbn [fst].
  apply (@fold_bump_counted Store.type l Hl [] (fun _ => 0)).
  reflexivity.
Qed.

Lemma types_count_members_witness :
  Forall (fun s => Obj.inherited (Store.type s) = None) [shopA; shopB; shopA] /\
  Obj.get_own (Summary.types (summary [shopA; shopB; shopA] 0)) "supermarket"
  = counted (withLabel Store.type "supermarket" [shopA; shopB; shopA]).
Proof.
  assert (H : Forall (fun s => Obj.inherited (Store.type s) = None)
                     [shopA; shopB; shopA]) by (repeat constructor).
  split; [exact H |].
  apply (@types_count_members [shopA; shopB; shopA] 0 "supermarket" H).
Defined.

(** X11.  The category counts of a summary add up to its store count
    exactly when no member's category is the name of a property of
    [Object.prototype]. *)
Theorem types_total_iff_own_labels :
  forall (clusterStores : list store) (idx : nat),
    Obj.total (Summary.types (summary clusterStores idx))
    = Some (Summary.storeCount (summary clusterStores idx))
    <-> Forall (fun s => Obj.inherited (Store.type s) = None) clusterStores.
Proof.
  intros l idx. split.
  - intros Ht. apply Forall_forall. intros s Hs.
    destruct (Obj.inherited (Store.type s)) as [text |] eqn:Hk; [| reflexivity].
    exfalso. revert Ht. cbn [Summary.types Summary.storeCount summary].
    unfold breakdown. rewrite breakdown_components. cbn [fst].
    apply (@fold_bump_clean Store.type l [] 0).
    + split; [reflexivity | reflexivity].
    + apply Exists_exists. exists s. split; [exact Hs | congruence].
  - intros Hl. apply (proj1 (@breakdown_totals l idx Hl)).
Qed.

(** ** More on [clustersSummary] *)

Section SummariesMore.

Lemma lookupStores_throw (fetchedStores : list store) (clusterIndexes : list nat) :
  forall e, lookupStores fetchedStores clusterIndexes = Throw e ->
            e = TypeError /\
            Exists (fun i => List.length fetchedStores <= i) clusterIndexes.
Proof.
  unfold lookupStores.
  induction clusterIndexes as [| i l IH]; intros e H; simpl in H.
  - discriminate.
  - destruct (nth_error fetchedStores i) as [s |] eqn:Es; simpl in H.
    + destruct (mapM _ l) as [cs | e'] eqn:El; simpl in H; [discriminate |].
      injection H as <-. destruct (IH e' eq_refl) as [-> Hex].
      split; [reflexivity | right; exact Hex].
    + injection H as <-. split; [reflexivity |].
      left. apply nth_error_None. exact Es.
Qed.

Lemma lookupStores_stores (fetchedStores : list store) (clusterIndexes : list nat) :
  forall cs, lookupStores fetchedStores clusterIndexes = Ok cs ->
             map Some cs = map (nth_error fetchedStores) clusterIndexes.
Proof.
  unfold lookupStores.
  induction clusterIndexes as [| i l IH]; intros cs H; simpl in H.
  - injection H as <-. reflexivity.
  - destruct (nth_error fetchedStores i) as [s |] eqn:Es; simpl in H;
      [| discriminate].
    destruct (mapM _ l) as [cs' | e'] eqn:El; simpl in H; [| discriminate].
    injection H as <-. simpl. rewrite Es, (IH cs' eq_refl). reflexivity.
Qed.

Lemma clustersSummary_from_throw (fetchedStores : list store)
    (clusters : list (list nat)) :
  forall idx e,
    clustersSummary_from idx fetchedStores clusters = Throw e ->
    e = TypeError /\
    Exists (Exists (fun i => List.length fetchedStores <= i)) clusters.
Proof.
  induction clusters as [| cl cls IH]; intros idx e H; simpl in H.
  - discriminate.
  - destruct (lookupStores fetchedStores cl) as [cs | e'] eqn:El; simpl in H.
    + destruct (clustersSummary_from (S idx) fetchedStores cls)
        as [ss | e''] eqn:Es; simpl in H; [discriminate |].
      injection H as <-. destruct (IH _ _ Es) as [-> Hex].
      split; [reflexivity | right; exact Hex].
    + injection H as <-. destruct (lookupStores_throw _ _ El) as [-> Hex].
      split; [reflexivity | left; exact Hex].
Qed.

Lemma clustersSummary_from_nth (fetchedStores : list store)
    (clusters : list (list nat)) :
  forall idx summaries,
    clustersSummary_from idx fetchedStores clusters = Ok summaries ->
    List.length summaries = List.length clusters /\
    forall j cl, nth_error clusters j = Some cl ->
      exists s, nth_error summaries j = Some s /\
                Summary.id s = idx + j /\
                Summary.storeCount s = List.length cl /\
                map Some (Summary.stores s) = map (nth_error fetchedStores) cl.
Proof.
  induction clusters as [| c cls IH]; intros idx ss H; simpl in H.
  - injection H as <-. split; [reflexivity |]. intros [| j] cl Hj; discriminate.
  - destruct (lookupStores fetchedStores c) as [cs | e'] eqn:El; simpl in H;
      [| discriminate].
    destruct (clustersSummary_from (S idx) fetchedStores cls)
      as [ss' | e''] eqn:Es; simpl in H; [| discriminate].
    injection H as <-. destruct (IH _ _ Es) as [Hlen Hnth].
    split; [simpl; rewrite Hlen; reflexivity |].
    intros [| j] cl Hj; simpl in Hj.
    + injection Hj as <-. exists (summary cs idx).
      split; [reflexivity |]. cbn [Summary.id Summary.storeCount
                                  Summary.stores summary].
      assert (Hs := lookupStores_stores _ _ El).
      split; [lia | split; [| exact Hs]].
      rewrite <- (length_map Some cs), Hs, length_map. reflexivity.
    + destruct (Hnth j cl Hj) as (s & Hs & Hid & Hrest).
      exists s. split; [exact Hs | split; [lia | exact Hrest]].
Qed.

End SummariesMore.

(** X12.  Summarizing throws exactly when some cluster holds an index
    that is not an index of the store list, and what it throws then is a
    [TypeError]; with all indices in range it returns. *)
Theorem clustersSummary_throws_iff_out_of_range :
  forall (fetchedStores : list store) (clusters : list (list nat)),
    (forall e, clustersSummary fetchedStores clusters = Throw e -> e = TypeError) /\
    (clustersSummary fetchedStores clusters = Throw TypeError <->
     Exists (Exists (fun i => List.length fetchedStores <= i)) clusters).
Proof.
  intros fetchedStores clusters. unfold clustersSummary. split; [| split].
  - intros e H. apply (clustersSummary_from_throw _ _ _ H).
  - intros H. apply (clustersSummary_from_throw _ _ _ H).
  - intros Hex.
    destruct (clustersSummary_from 0 fetchedStores clusters) as [ss | e] eqn:E.
    + exfalso.
      assert (Hin : Forall (Forall (fun i => i < List.length fetchedStores)) clusters).
      { destruct (clustersSummary_from_nth _ _ _ E) as [_ Hnth].
        apply Forall_forall. intros cl Hcl.
        destruct (In_nth_error _ _ Hcl) as [j Hj].
        destruct (Hnth j cl Hj) as (s & _ & _ & _ & Hs).
        apply Forall_forall. intros i Hi.
        assert (Hi' : In (nth_error fetchedStores i)
                         (map (nth_error fetchedStores) cl))
          by (apply in_map; exact Hi).
        rewrite <- Hs in Hi'. apply in_map_iff in Hi'.
        destruct Hi' as (s' & Es' & _).
        apply nth_error_Some. rewrite <- Es'. discriminate. }
      apply Exists_exists in Hex. destruct Hex as (cl & Hcl & Hex).
      apply Exists_exists in Hex. destruct Hex as (i & Hi & Hge).
      rewrite Forall_forall in Hin. specialize (Hin cl Hcl).
      rewrite Forall_forall in Hin. specialize (Hin i Hi). lia.
    + f_equal. apply (clustersSummary_from_throw _ _ _ E).
Qed.

(** X13.  When summarizing returns, it returns one summary per cluster,
    in the order of the clusters: the summary at position [j] has id [j],
    counts the indices of cluster [j], and holds the stores these indices
    name, in their order. *)
Theorem clustersSummary_follows_clusters :
  forall (fetchedStores : list store) (clusters : list (list nat))
         (summaries : list ClusterSummary),
    clustersSummary fetchedStores clusters = Ok summaries ->
    List.length summaries = List.length clusters /\
    forall j cl, nth_error clusters j = Some cl ->
      exists s, nth_error summaries j = Some s /\
                Summary.id s = j /\
                Summary.storeCount s = List.length cl /\
                map Some (Summary.stores s) = map (nth_error fetchedStores) cl.
Proof.
  intros fetchedStores clusters summaries H.
  apply (clustersSummary_from_nth _ _ _ H).
Qed.

Lemma clustersSummary_follows_clusters_witness :
  clustersSummary [shopA; shopB; shopC] [[0; 2]; [1]]
  = Ok [summary [shopA; shopC] 0; summary [shopB] 1] /\
  (List.length [summary [shopA; shopC] 0; summary [shopB] 1]
   = List.length [[0; 2]; [1]] /\
   forall j cl, nth_error [[0; 2]; [1]] j = Some cl ->
     exists s, nth_error [summary [shopA; shopC] 0; summary [shopB] 1] j = Some s /\
               Summary.id s = j /\
               Summary.storeCount s = List.length cl /\
               map Some (Summary.stores s)
               = map (nth_error [shopA; shopB; shopC]) cl).
Proof.
  assert (H : clustersSummary [shopA; shopB; shopC] [[0; 2]; [1]]
              = Ok [summary [shopA; shopC] 0; summary [shopB] 1])
    by reflexivity.
  split; [exact H |].
  apply (@clustersSummary_follows_clusters
           [shopA; shopB; shopC] [[0; 2]; [1]] _ H).
Defined.

(** ** The heat layer *)

(** X14.  The heat data has one entry per store, in order, with the
    store's coordinates and the weight 0.4, 0.7 or 1 by the size of the
    store: the default 0.5 of [sizeWeight[s.size] || 0.5] is never
    taken. *)
Theorem heat_weights :
  forall fetchedStores : list store,
    heatData fetchedStores
    = map (fun s => (Store.lat s, Store.lng s,
                     Fin match Store.size s with
                         | small => 0.4
                         | medium => 0.7
                         | large => 1
                         end)) fetchedStores /\
    Forall (fun e => snd e <> Fin 0.5) (heatData fetchedStores).
Proof.
  intros fetchedStores.
  assert (E : forall s, heatWeight s = Fin match Store.size s with
                                           | small => 0.4
                                           | medium => 0.7
                                           | large => 1
                                           end).
  { intros s. unfold heatWeight. destruct (Store.size s); cbn [size_name own_weight
      sizeWeight String.eqb Ascii.eqb Bool.eqb]; unfold truthy;
      destruct (Req_dec_T _ 0) as [H | _]; try reflexivity; exfalso; lra. }
  split.
  - unfold heatData. apply map_ext. intros s. rewrite E. reflexivity.
  - unfold heatData. apply Forall_map, Forall_forall. intros s _.
    cbn [snd]. rewrite E. intros H. injection H as H.
    destruct (Store.size s); lra.
Qed.

(** ** The stores made of the elements *)

Section ToStoreMore.

Local Open Scope string_scope.

Lemma orElse_value (a b : option string) (s : string) :
  orElse a b = Some s -> (a = Some s /\ s <> "") \/ b = Some s.
Proof.
  unfold orElse. destruct a as [x |]; [| auto].
  destruct (String.eqb x "") eqn:E; [auto |].
  intros H. injection H as <-. left. split; [reflexivity |].
  apply String.eqb_neq. exact E.
Qed.

Lemma orElse_first (a b : option string) (s : string) :
  a = Some s -> s <> "" -> orElse a b = Some s.
Proof.
  intros -> Hs. unfold orElse. apply String.eqb_neq in Hs. rewrite Hs. reflexivity.
Qed.

Lemma orElse_default (a : option string) (d : string) :
  d <> "" -> exists s, orElse a (Some d) = Some s /\ s <> "".
Proof.
  intros Hd. unfold orElse. destruct a as [x |]; [| eauto].
  destruct (String.eqb x "") eqn:E; [eauto |].
  exists x. split; [reflexivity | apply String.eqb_neq; exact E].
Qed.

Lemma includes_small_mall (s : string) :
  Str.includes s "small" = true -> Str.includes s "mall" = true.
Proof.
  induction s as [| c s IH]; intros H.
  - discriminate H.
  - cbn [Str.includes] in H. apply orb_true_iff in H.
    cbn [Str.includes]. apply orb_true_iff. right.
    destruct H as [H | H]; [| apply IH; exact H].
    cbn [String.prefix] in H.
    destruct (ascii_dec "s" c) as [_ | _]; [| discriminate H].
    destruct s as [| c' s']; [discriminate H |].
    cbn [Str.includes]. apply orb_true_iff. left. exact H.
Qed.


Lemma orElse_blank (a b : option string) : blank a -> orElse a b = b.
Proof. intros [-> | ->]; reflexivity. Qed.

(** X15.  The name of a store is the element's [name] tag when that is
    not empty, else its [brand] tag when that is not empty, else
    ["Unnamed"], also for an element without tags; so it is never
    empty. *)
Theorem store_name_never_empty :
  forall (toLowerCase : string -> string) (el : element),
    let n := Store.name (toStore toLowerCase el) in
    n <> EmptyString /\
    (n = "Unnamed"%string \/
     exists t, Element.tags el = Some t /\
               (tag t "name" = Some n \/ tag t "brand" = Some n)) /\
    (forall t s, Element.tags el = Some t -> tag t "name" = Some s ->
                 s <> EmptyString -> n = s) /\
    (forall t s, Element.tags el = Some t -> blank (tag t "name") ->
                 tag t "brand" = Some s -> s <> EmptyString -> n = s) /\
    (forall t, Element.tags el = Some t -> blank (tag t "name") ->
               blank (tag t "brand") -> n = "Unnamed"%string) /\
    (Element.tags el = None -> n = "Unnamed"%string).
Proof.
  intros toLowerCase el. cbn zeta. cbn [Store.name toStore]. unfold inferName.
  destruct (Element.tags el) as [t |].
  - destruct (@orElse_default (orElse (tag t "name") (tag t "brand")) "Unnamed")
      as (s & Hs & Hne); [discriminate |].
    rewrite Hs. split; [exact Hne |]. split; [| split; [| split; [| split]]].
    + apply orElse_value in Hs. destruct Hs as [[Hs _] | Hs].
      * right. exists t. split; [reflexivity |].
        apply orElse_value in Hs. destruct Hs as [[Hs _] | Hs]; auto.
      * left. congruence.
    + intros t' s' Ht Hn Hs'. injection Ht as <-.
      rewrite (orElse_first _ (orElse_first (tag t "brand") Hn Hs') Hs') in Hs.
      congruence.
    + intros t' s' Ht Hn Hb Hs'. injection Ht as <-.
      rewrite (orElse_blank _ Hn), Hb in Hs.
      rewrite (orElse_first _ eq_refl Hs') in Hs. congruence.
    + intros t' Ht Hn Hb. injection Ht as <-.
      rewrite (orElse_blank _ Hn), (orElse_blank _ Hb) in Hs. congruence.
    + intros H. discriminate H.
  - simpl. split; [discriminate |]. split; [now left |].
    split; [intros t s H; discriminate H |].
    split; [intros t s H; discriminate H |].
    split; [intros t H; discriminate H | reflexivity].
Qed.

Example store_name_from_brand :
  Store.name (toStore (fun s => s)
                (Element.mk 1 (Fin 0) (Fin 0) (Some [("brand", "acme")])))
  = "acme".
Proof. reflexivity. Qed.

(** X16.  A store made of an element with tags has as its category the
    [shop] tag when that is not empty, else the [amenity] tag when that is
    not empty, else ["shop"]; so the category is never empty. *)
Theorem store_type_never_empty :
  forall (toLowerCase : string -> string) (el : element)
         (t : list (string * string)),
    Element.tags el = Some t ->
    let ty := Store.type (toStore toLowerCase el) in
    ty <> EmptyString /\
    (ty = "shop"%string \/ tag t "shop" = Some ty \/ tag t "amenity" = Some ty) /\
    (forall s, tag t "shop" = Some s -> s <> EmptyString -> ty = s) /\
    (forall s, blank (tag t "shop") -> tag t "amenity" = Some s ->
               s <> EmptyString -> ty = s) /\
    (blank (tag t "shop") -> blank (tag t "amenity") -> ty = "shop"%string).
Proof.
  intros toLowerCase el t Ht. cbn zeta. cbn [Store.type toStore].
  unfold inferType. rewrite Ht.
  destruct (@orElse_default (orElse (tag t "shop") (tag t "amenity")) "shop")
    as (s & Hs & Hne); [discriminate |].
  rewrite Hs. split; [exact Hne |]. split; [| split; [| split]].
  - apply orElse_value in Hs. destruct Hs as [[Hs _] | Hs].
    + apply orElse_value in Hs. destruct Hs as [[Hs _] | Hs]; auto.
    + left. congruence.
  - intros s' Hn Hs'.
    rewrite (orElse_first _ (orElse_first (tag t "amenity") Hn Hs') Hs') in Hs.
    congruence.
  - intros s' Hn Ha Hs'.
    rewrite (orElse_blank _ Hn), Ha in Hs.
    rewrite (orElse_first _ eq_refl Hs') in Hs. congruence.
  - intros Hn Ha.
    rewrite (orElse_blank _ Hn), (orElse_blank _ Ha) in Hs. congruence.
Qed.

Lemma store_type_never_empty_witness :
  Element.tags (Element.mk 1 (Fin 0) (Fin 0) (Some [("amenity", "marketplace")]))
  = Some [("amenity", "marketplace")]%string /\
  Store.type
    (toStore (fun s => s)
       (Element.mk 1 (Fin 0) (Fin 0) (Some [("amenity", "marketplace")])))
  = "marketplace".
Proof.
  split; [reflexivity |].
  destruct (@store_type_never_empty (fun s => s)
              (Element.mk 1 (Fin 0) (Fin 0) (Some [("amenity", "marketplace")]))
              [("amenity", "marketplace")]%string eq_refl)
    as (_ & _ & _ & Hamenity & _).
  apply Hamenity.
  - left. reflexivity.
  - reflexivity.
  - discriminate.
Defined.

(** X17.  An element whose tag values, joined and put in lower case,
    contain "small" is given the size [large], because "small" contains
    the keyword "mall". *)
Theorem small_in_a_tag_means_large :
  forall (toLowerCase : string -> string) (el : element)
         (t : list (string * string)),
    Element.tags el = Some t ->
    Str.includes (allTags toLowerCase t) "small" = true ->
    Store.size (toStore toLowerCase el) = large.
Proof.
  intros toLowerCase el t Ht H. cbn [Store.size toStore].
  unfold inferSize. rewrite Ht.
  apply includes_small_mall in H.
  unfold bigKeywords. cbn [existsb]. rewrite H, !orb_true_r. reflexivity.
Qed.

Lemma small_in_a_tag_means_large_witness :
  Element.tags (Element.mk 1 (Fin 0) (Fin 0)
                  (Some [("shop", "kiosk"); ("description", "a small kiosk")]))
  = Some [("shop", "kiosk"); ("description", "a small kiosk")]%string /\
  Str.includes
    (allTags (fun s => s) [("shop", "kiosk"); ("description", "a small kiosk")])
    "small" = true /\
  Store.size
    (toStore (fun s => s)
       (Element.mk 1 (Fin 0) (Fin 0)
          (Some [("shop", "kiosk"); ("description", "a small kiosk")])))
  = large.
Proof.
  split; [reflexivity | split; [reflexivity |]].
  apply (@small_in_a_tag_means_large (fun s => s)
           (Element.mk 1 (Fin 0) (Fin 0)
              (Some [("shop", "kiosk"); ("description", "a small kiosk")]))
           [("shop", "kiosk"); ("description", "a small kiosk")]%string
           eq_refl eq_refl).
Defined.

End ToStoreMore.

(** ** [formatAiInsight] *)

Section FormatMore.

Local Open Scope string_scope.

Variable toLowerCase : string -> string.
Variable trim : string -> string.
Variable dropSpaces : string -> string.

Lemma string_app_assoc (a b c : string) : (a ++ b) ++ c = a ++ (b ++ c).
Proof. induction a as [| x a IH]; simpl; [reflexivity | rewrite IH; reflexivity]. Qed.

Lemma string_app_nil_r (a : string) : a ++ "" = a.
Proof. induction a as [| x a IH]; simpl; [reflexivity | rewrite IH; reflexivity]. Qed.

Lemma tagged_h3 (html body : string) : tagged html -> tagged (html ++ h3 body).
Proof.
  intros [-> | (rest & [-> | ->])].
  - right. eexists. left. unfold h3. simpl. reflexivity.
  - right. eexists. left. rewrite string_app_assoc. reflexivity.
  - right. eexists. right. rewrite string_app_assoc. reflexivity.
Qed.

Lemma tagged_p (html body : string) : tagged html -> tagged (html ++ p body).
Proof.
  intros [-> | (rest & [-> | ->])].
  - right. eexists. right. unfold p. simpl. reflexivity.
  - right. eexists. left. rewrite string_app_assoc. reflexivity.
  - right. eexists. right. rewrite string_app_assoc. reflexivity.
Qed.

Lemma tagged_lines (lines : list string) :
  forall html, tagged html ->
    tagged (fold_left (fun html line => html ++ p (trim (dropBullet dropSpaces line)))
                      lines html).
Proof.
  induction lines as [| line lines IH]; intros html H; simpl; [exact H |].
  apply IH, tagged_p, H.
Qed.

Lemma tagged_sections (sections : list string) :
  forall html, tagged html ->
    tagged (fold_left (renderSection toLowerCase trim dropSpaces) sections html).
Proof.
  induction sections as [| s sections IH]; intros html H; simpl; [exact H |].
  apply IH. unfold renderSection.
  destruct (isHeading toLowerCase s); [apply tagged_h3 | apply tagged_lines]; exact H.
Qed.

Lemma noInsight_not_tagged : ~ tagged noInsight.
Proof.
  intros [H | (rest & [H | H])]; discriminate H.
Qed.

Lemma split_from_none (sep s : string) :
  forall piece,
    Str.includes s sep = false ->
    Str.split_from sep s 0 piece = [piece ++ s].
Proof.
  induction s as [| c s IH]; intros piece H.
  - simpl. rewrite string_app_nil_r. reflexivity.
  - cbn [Str.includes] in H. apply orb_false_iff in H. destruct H as [Hp Hs].
    cbn [Str.split_from]. rewrite Hp, (IH _ Hs), string_app_assoc. reflexivity.
Qed.

Lemma split_none (sep s : string) :
  Str.includes s sep = false -> Str.split sep s = [s].
Proof. intros H. unfold Str.split. rewrite split_from_none by exact H. reflexivity. Qed.

Lemma nonEmpty_one (s : string) : s <> "" -> Str.nonEmpty [s] = [s].
Proof.
  intros H. unfold Str.nonEmpty. simpl.
  apply String.eqb_neq in H. rewrite H. reflexivity.
Qed.

(** X18.  The text "No insight available." is returned when there is no
    insight yet ([null], [undefined]) and for the empty string, and for no
    other input. *)
Theorem no_insight_only_for_empty :
  forall raw : option string,
    formatAiInsightOf toLowerCase trim dropSpaces raw = noInsight
    <-> raw = None \/ raw = Some "".
Proof.
  intros [raw |]; cbn [formatAiInsightOf]; [| split; auto].
  unfold formatAiInsight.
  destruct (String.eqb raw "") eqn:E.
  - apply String.eqb_eq in E. subst raw. split; auto.
  - apply String.eqb_neq in E. split.
    + intros H. exfalso. apply noInsight_not_tagged. rewrite <- H.
      apply tagged_sections. now left.
    + intros [H | H]; [discriminate H | congruence].
Qed.

(** X19.  A text that is not empty and contains neither "**" nor an empty
    line becomes one element that holds the text as it is, with no
    character escaped: an [h3] with the trimmed text when the text names a
    heading, else a [p] with the text trimmed after its leading bullet is
    dropped. *)
Theorem plain_text_is_embedded_as_is :
  forall raw : string,
    raw <> "" ->
    Str.includes raw "**" = false ->
    Str.includes raw (String "010" (String "010" "")) = false ->
    formatAiInsight toLowerCase trim dropSpaces raw
    = if isHeading toLowerCase raw then h3 (trim raw)
      else p (trim (dropBullet dropSpaces raw)).
Proof.
  intros raw Hne Hstar Hline. unfold formatAiInsight.
  apply String.eqb_neq in Hne. rewrite Hne. apply String.eqb_neq in Hne.
  rewrite (split_none _ _ Hstar), (nonEmpty_one Hne).
  cbn [fold_left]. unfold renderSection.
  destruct (isHeading toLowerCase raw); [reflexivity |].
  rewrite (split_none _ _ Hline), (nonEmpty_one Hne). reflexivity.
Qed.

End FormatMore.

Lemma plain_text_is_embedded_as_is_witness :
  ("<b>3 stores</b>" <> "")%string /\
  Str.includes "<b>3 stores</b>" "**" = false /\
  Str.includes "<b>3 stores</b>" (String "010" (String "010" "")) = false /\
  formatAiInsight (fun s => s) (fun s => s) (fun s => s) "<b>3 stores</b>"
  = if isHeading (fun s => s) "<b>3 stores</b>"
    then h3 ((fun s : string => s) "<b>3 stores</b>"%string)
    else p ((fun s : string => s)
              (dropBullet (fun s => s) "<b>3 stores</b>")).
Proof.
  assert (H : ("<b>3 stores</b>" <> "")%string) by discriminate.
  split; [exact H | split; [reflexivity | split; [reflexivity |]]].
  apply (@plain_text_is_embedded_as_is (fun s => s) (fun s => s) (fun s => s)
           "<b>3 stores</b>"%string H eq_refl eq_refl).
Defined.
